(** * A Vietnamese Wordle helper: normalizer, query parsers and matchers

    The development embeds the matching core of [main.go].  The source
    file holds two revisions of the program, one after the other:

    - the first revision ([Rev1]) has the hyphen dialect ("3-4-aug":
      [parsePattern], [matchSyllablePatternWithChars]) next to a
      two-argument [matchWildcard];
    - the second revision ([Rev2]) has the wildcard dialect with
      required and excluded letters ("viet *** +a -oh": the
      four-argument [matchWildcard], [normalizeSpaces] and [ui]).

    [removeDiacritics] is the same function in both revisions.

    Go strings are modelled by the sequence of runes that [range] and
    [[]rune(s)] read from them; every function of the program looks at
    its strings through one of these, or through [strings.Split] and
    [strings.Fields] on ASCII separators, which cut between runes.
    Slice indexing is checked: an index out of range is the run-time
    panic [Panic]. *)

From Stdlib Require Import String Ascii ZArith List Bool Lia.
Import ListNotations.
Local Open Scope Z_scope.

(** ** Runes and strings *)

Definition rune := Z.
Definition gostring := list rune.

(** An ASCII literal of the source, as its runes. *)
Definition runeOf (a : ascii) : rune := Z.of_N (N_of_ascii a).
Definition str (s : string) : gostring := map runeOf (list_ascii_of_string s).

Definition star : rune := 42.      (* '*' *)
Definition space : rune := 32.     (* ' ' *)
Definition hyphen : rune := 45.    (* '-' *)
Definition plus : rune := 43.      (* '+' *)
Definition bang : rune := 33.      (* '!' *)
Definition d_small : rune := 100.  (* 'd' *)
Definition d_cap : rune := 68.     (* 'D' *)
Definition dstroke_small : rune := 0x111.  (* U+0111, d with stroke *)
Definition dstroke_cap : rune := 0x110.    (* U+0110, D with stroke *)

Fixpoint eqs (a b : gostring) : bool :=
  match a, b with
  | [], [] => true
  | x :: a', y :: b' => (x =? y) && eqs a' b'
  | _, _ => false
  end.

(** ** Run-time panics and loops with early [return] *)

Inductive result (A : Type) : Type :=
| Ok (a : A)
| Panic.
Arguments Ok {A} a.
Arguments Panic {A}.

Definition bind {A B : Type} (r : result A) (k : A -> result B) : result B :=
  match r with
  | Ok a => k a
  | Panic => Panic
  end.

Notation "x <- e ;; k" := (bind e (fun x => k))
  (at level 61, e at next level, right associativity).

(** What one turn of a loop body does: go on with the loop state, or
    leave the function with [return b]. *)
Inductive flow (S : Type) : Type :=
| Next (s : S)
| Return (b : bool).
Arguments Next {S} s.
Arguments Return {S} b.

(** [for _, x := range xs { body }] *)
Fixpoint forRange {A S : Type} (xs : list A) (body : A -> S -> result (flow S))
    (s : S) : result (flow S) :=
  match xs with
  | [] => Ok (Next s)
  | x :: xs' =>
      r <- body x s ;;
      match r with
      | Next s' => forRange xs' body s'
      | Return b => Ok (Return b)
      end
  end.

(** [for _, x := range xs { body }] for a body that never returns. *)
Fixpoint forEach {A S : Type} (xs : list A) (body : A -> S -> result S) (s : S)
    : result S :=
  match xs with
  | [] => Ok s
  | x :: xs' => s' <- body x s ;; forEach xs' body s'
  end.

(** [l[i]], with Go's bounds check. *)
Definition index {A : Type} (l : list A) (i : nat) : result A :=
  match nth_error l i with
  | Some x => Ok x
  | None => Panic
  end.

(** [for i := range l]: the indices of [l]. *)
Definition indices {A : Type} (l : list A) : list nat := seq 0 (length l).

(** The answer of a matcher read as a condition: [true] for [Ok true]
    only. *)
Definition holds (r : result bool) : bool :=
  match r with
  | Ok true => true
  | _ => false
  end.

(** ** Unicode character data

    [norm.NFD], [unicode.Mn] and [strings.ToLower] read tables of the
    Unicode character database, which are not part of the repository.
    The program is parameterised by them: the full canonical
    decomposition of a rune, its canonical combining class, whether its
    general category is Mn, and its lower-case mapping. *)

Record UCD : Type := {
  ucd_decomp : rune -> list rune;
  ucd_ccc : rune -> Z;
  ucd_Mn : rune -> bool;
  ucd_lower : rune -> rune
}.

(** ** The Go library functions the program calls *)

Module unicode.

(** [unicode.IsSpace]: the White_Space property. *)
Definition IsSpace (r : rune) : bool :=
  ((9 <=? r) && (r <=? 13)) || (r =? 0x20) || (r =? 0x85) || (r =? 0xA0)
  || (r =? 0x1680) || ((0x2000 <=? r) && (r <=? 0x200A))
  || (r =? 0x2028) || (r =? 0x2029) || (r =? 0x202F) || (r =? 0x205F)
  || (r =? 0x3000).

End unicode.

Module utf8.

Definition RuneCountInString (s : gostring) : Z := Z.of_nat (length s).

End utf8.

Module strings.

(** [strings.Fields]: the maximal runs of non-space runes.  [cur] is the
    field being read ([[]] between fields: a field is never empty). *)
Fixpoint fieldsFrom (cur s : gostring) : list gostring :=
  match s with
  | [] => match cur with [] => [] | _ => [cur] end
  | c :: s' =>
      if unicode.IsSpace c
      then match cur with [] => fieldsFrom [] s' | _ => cur :: fieldsFrom [] s' end
      else fieldsFrom (cur ++ [c]) s'
  end.

Definition Fields (s : gostring) : list gostring := fieldsFrom [] s.

(** [strings.Split(s, sep)] for a separator of one rune, which is what
    both call sites pass (" " and "-"). *)
Fixpoint splitFrom (sep : rune) (cur s : gostring) : list gostring :=
  match s with
  | [] => [cur]
  | c :: s' =>
      if c =? sep then cur :: splitFrom sep [] s' else splitFrom sep (cur ++ [c]) s'
  end.

Definition Split (s : gostring) (sep : rune) : list gostring := splitFrom sep [] s.

(** [strings.Join(elems, sep)] for a separator of one rune. *)
Fixpoint Join (elems : list gostring) (sep : rune) : gostring :=
  match elems with
  | [] => []
  | [e] => e
  | e :: rest => e ++ sep :: Join rest sep
  end.

Definition ContainsRune (s : gostring) (r : rune) : bool :=
  existsb (fun c => c =? r) s.

Fixpoint trimLeft (s : gostring) : gostring :=
  match s with
  | c :: s' => if unicode.IsSpace c then trimLeft s' else s
  | [] => []
  end.

Definition TrimSpace (s : gostring) : gostring :=
  rev (trimLeft (rev (trimLeft s))).

Definition ToLower (U : UCD) (s : gostring) : gostring := map (ucd_lower U) s.

End strings.

Module strconv.

Definition isDigit (c : rune) : bool := (48 <=? c) && (c <=? 57).

(** The digits of an unsigned decimal numeral, most significant first. *)
Definition digitsValue (ds : gostring) : Z :=
  fold_left (fun n c => n * 10 + (c - 48)) ds 0.

(** [strconv.Atoi] on a 64-bit platform: an optional sign, then one or
    more decimal digits, and a value that fits [int].  [None] is a
    non-nil [err]; the program drops the value then. *)
Definition Atoi (s : gostring) : option Z :=
  let '(neg, ds) :=
    match s with
    | c :: s' => if c =? hyphen then (true, s') else if c =? plus then (false, s') else (false, s)
    | [] => (false, [])
    end in
  match ds with
  | [] => None
  | _ =>
      if forallb isDigit ds
      then let n := if neg then - digitsValue ds else digitsValue ds in
           if (- 2 ^ 63 <=? n) && (n <=? 2 ^ 63 - 1) then Some n else None
      else None
  end.

End strconv.

Module norm.

(** Canonical ordering: a rune of non-zero combining class moves left
    past the runes of greater class before it.  [racc] is the output
    so far, last rune first. *)
Fixpoint insertMark (U : UCD) (c : rune) (racc : list rune) : list rune :=
  match racc with
  | p :: racc' =>
      if (0 <? ucd_ccc U c) && (ucd_ccc U c <? ucd_ccc U p)
      then p :: insertMark U c racc'
      else c :: racc
  | [] => [c]
  end.

Definition canonicalOrder (U : UCD) (s : gostring) : gostring :=
  rev (fold_left (fun racc c => insertMark U c racc) s []).

(** [norm.NFD.String]: decompose every rune, then order the marks. *)
Definition NFD (U : UCD) (s : gostring) : gostring :=
  canonicalOrder U (flat_map (ucd_decomp U) s).

End norm.

(** ** The normalizer (both revisions) *)

Definition removeDiacritics (U : UCD) (s : gostring) : gostring :=
  let t := norm.NFD U s in
  fold_left
    (fun b r =>
       if ucd_Mn U r then b
       else if r =? dstroke_small then b ++ [d_small]
       else if r =? dstroke_cap then b ++ [d_cap]
       else b ++ [r])
    t [].

(** What one prompt of the program does: one of the directives, or the
    words it printed, in the order it printed them.  The dictionary is a
    Go map of which the program only ranges over the keys; it is given
    as its keys in the order the [range] visits them. *)
Inductive outcome : Type :=
| Quit
| Help
| Clear
| Printed (words : list gostring).

(** ** First revision: the hyphen dialect *)

Module Rev1.

Record SyllableCond : Type := { Length : Z }.

Definition parsePattern (query : gostring) : list SyllableCond * gostring :=
  let parts := strings.Split query hyphen in
  fold_left
    (fun '(conds, mustChars) p =>
       match strconv.Atoi p with
       | Some n => (conds ++ [{| Length := n |}], mustChars)
       | None => (conds, mustChars ++ p)
       end)
    parts ([], []).

Definition matchWildcard (pattern text : gostring) : result bool :=
  let pRunes := pattern in
  let tRunes := text in
  if negb (length pRunes =? length tRunes)%nat then Ok false
  else
    r <- forRange (indices pRunes)
           (fun i (_ : unit) =>
              p <- index pRunes i ;;
              if p =? star then Ok (Next tt)
              else
                p' <- index pRunes i ;;
                t <- index tRunes i ;;
                if negb (p' =? t) then Ok (Return false) else Ok (Next tt))
           tt ;;
    match r with
    | Return b => Ok b
    | Next _ => Ok true
    end.

Definition matchSyllablePatternWithChars (word : gostring)
    (conds : list SyllableCond) (mustChars : gostring) : result bool :=
  let parts := strings.Fields word in
  if negb (length parts =? length conds)%nat then Ok false
  else
    r <- forRange (combine (indices parts) parts)
           (fun '(i, part) (_ : unit) =>
              c <- index conds i ;;
              if negb (utf8.RuneCountInString part =? Length c)
              then Ok (Return false) else Ok (Next tt))
           tt ;;
    match r with
    | Return b => Ok b
    | Next _ =>
        r' <- forRange mustChars
                (fun ch (_ : unit) =>
                   if negb (strings.ContainsRune word ch)
                   then Ok (Return false) else Ok (Next tt))
                tt ;;
        match r' with
        | Return b => Ok b
        | Next _ => Ok true
        end
    end.

(** The prompt of [main]: [line] is what [ReadString] returned. *)
Definition main (U : UCD) (dict : list gostring) (line : gostring) : result outcome :=
  let query := strings.TrimSpace line in
  if eqs query (str "!help") then Ok Help
  else if strings.ContainsRune query hyphen then
    let '(conds, mustChars) := parsePattern query in
    out <- forEach dict
             (fun word out =>
                m <- matchSyllablePatternWithChars (removeDiacritics U word) conds mustChars ;;
                Ok (if m then out ++ [word] else out))
             [] ;;
    Ok (Printed out)
  else
    let queryNorm := strings.ToLower U (removeDiacritics U query) in
    out <- forEach dict
             (fun word out =>
                let wordNorm := strings.ToLower U (removeDiacritics U word) in
                m <- matchWildcard queryNorm wordNorm ;;
                Ok (if m then out ++ [word] else out))
             [] ;;
    Ok (Printed out).

End Rev1.

(** ** Second revision: the wildcard dialect *)

Module Rev2.

Definition normalizeSpaces (s : gostring) : gostring :=
  strings.Join (strings.Fields s) space.

(** The body of [for j := range pw]. *)
Definition cellBody (pw tw : gostring) (j : nat) (allWildcardRunes : list rune)
    : result (flow (list rune)) :=
  p <- index pw j ;;
  if p =? star then
    t <- index tw j ;;
    Ok (Next (allWildcardRunes ++ [t]))
  else
    p' <- index pw j ;;
    t <- index tw j ;;
    if negb (p' =? t) then Ok (Return false) else Ok (Next allWildcardRunes).

(** The body of [for i := range pWords]. *)
Definition wordBody (pWords tWords : list gostring) (i : nat)
    (allWildcardRunes : list rune) : result (flow (list rune)) :=
  pw <- index pWords i ;;
  tw <- index tWords i ;;
  if negb (length pw =? length tw)%nat then Ok (Return false)
  else forRange (indices pw) (cellBody pw tw) allWildcardRunes.

Definition matchWildcard (pattern text required excluded : gostring) : result bool :=
  let pattern := normalizeSpaces pattern in
  let pWords := strings.Split pattern space in
  let tWords := strings.Split text space in
  if negb (length pWords =? length tWords)%nat then Ok false
  else
    r <- forRange (indices pWords) (wordBody pWords tWords) [] ;;
    match r with
    | Return b => Ok b
    | Next allWildcardRunes =>
        let wildcardText := allWildcardRunes in
        r1 <- forRange required
                (fun ch (_ : unit) =>
                   if negb (strings.ContainsRune wildcardText ch)
                   then Ok (Return false) else Ok (Next tt))
                tt ;;
        match r1 with
        | Return b => Ok b
        | Next _ =>
            r2 <- forRange excluded
                    (fun ch (_ : unit) =>
                       if strings.ContainsRune wildcardText ch
                       then Ok (Return false) else Ok (Next tt))
                    tt ;;
            match r2 with
            | Return b => Ok b
            | Next _ => Ok true
            end
        end
    end.

(** The three strings [ui] builds from the parts of the query. *)
Record Query : Type := {
  queryPattern : gostring;
  excludedChars : gostring;
  requiredChars : gostring
}.

(** The body of [for _, part := range queryParts]. *)
Definition classify (q : Query) (part : gostring) : Query :=
  let other :=
    {| queryPattern :=
         (match queryPattern q with
          | [] => []
          | _ => queryPattern q ++ [space]
          end) ++ part;
       excludedChars := excludedChars q;
       requiredChars := requiredChars q |} in
  match part with
  | c :: rest =>
      if c =? hyphen then
        {| queryPattern := queryPattern q;
           excludedChars := excludedChars q ++ rest;
           requiredChars := requiredChars q |}
      else if c =? plus then
        {| queryPattern := queryPattern q;
           excludedChars := excludedChars q;
           requiredChars := requiredChars q ++ rest |}
      else other
  | [] => other
  end.

Definition parseQuery (U : UCD) (query : gostring) : Query :=
  let queryNorm := strings.ToLower U (removeDiacritics U query) in
  let queryParts := strings.Split queryNorm space in
  fold_left classify queryParts
    {| queryPattern := []; excludedChars := []; requiredChars := [] |}.

(** One call of [ui]: [line] is what [ReadString] returned. *)
Definition ui (U : UCD) (dict : list gostring) (line : gostring) : result outcome :=
  let query := strings.TrimSpace line in
  if eqs query (str "!quit") then Ok Quit
  else if eqs query (str "!help") then Ok Help
  else if eqs query (str "!clear") then Ok Clear
  else
    let q := parseQuery U query in
    out <- forEach dict
             (fun word out =>
                let wordNorm := normalizeSpaces word in
                let wordNorm := strings.ToLower U (removeDiacritics U wordNorm) in
                m <- matchWildcard (queryPattern q) wordNorm (requiredChars q) (excludedChars q) ;;
                Ok (if m then out ++ [word] else out))
             [] ;;
    Ok (Printed out).

End Rev2.

(** ** An instance of the character data *)

Module ucd.

(** Modelled from the spec: the decomposition tables of
    [golang.org/x/text/unicode/norm] and the category and case tables of
    package [unicode] are not in the repository.  The spec asks for the
    "canonical Unicode decomposition form (letter + combining marks)"
    and for dropping "every character classified as a non-spacing
    combining mark".  The tables below are the rows of the Unicode
    character database for the Vietnamese alphabet, the block of
    combining diacritical marks (U+0300..U+036F) and the musical
    combining marks U+1D165..U+1D172; a rune outside these rows has no
    decomposition, class 0, is not Mn and, unless it is an ASCII
    capital, has no lower case of its own. *)

Definition decompositions : list (rune * list rune) :=
  [(0x00C0, [0x0041; 0x0300]); (0x00C1, [0x0041; 0x0301]); (0x00C2, [0x0041; 0x0302]);
   (0x00C3, [0x0041; 0x0303]); (0x00C8, [0x0045; 0x0300]); (0x00C9, [0x0045; 0x0301]);
   (0x00CA, [0x0045; 0x0302]); (0x00CC, [0x0049; 0x0300]); (0x00CD, [0x0049; 0x0301]);
   (0x00D2, [0x004F; 0x0300]); (0x00D3, [0x004F; 0x0301]); (0x00D4, [0x004F; 0x0302]);
   (0x00D5, [0x004F; 0x0303]); (0x00D9, [0x0055; 0x0300]); (0x00DA, [0x0055; 0x0301]);
   (0x00DD, [0x0059; 0x0301]); (0x00E0, [0x0061; 0x0300]); (0x00E1, [0x0061; 0x0301]);
   (0x00E2, [0x0061; 0x0302]); (0x00E3, [0x0061; 0x0303]); (0x00E8, [0x0065; 0x0300]);
   (0x00E9, [0x0065; 0x0301]); (0x00EA, [0x0065; 0x0302]); (0x00EC, [0x0069; 0x0300]);
   (0x00ED, [0x0069; 0x0301]); (0x00F2, [0x006F; 0x0300]); (0x00F3, [0x006F; 0x0301]);
   (0x00F4, [0x006F; 0x0302]); (0x00F5, [0x006F; 0x0303]); (0x00F9, [0x0075; 0x0300]);
   (0x00FA, [0x0075; 0x0301]); (0x00FD, [0x0079; 0x0301]); (0x0102, [0x0041; 0x0306]);
   (0x0103, [0x0061; 0x0306]); (0x0128, [0x0049; 0x0303]); (0x0129, [0x0069; 0x0303]);
   (0x0168, [0x0055; 0x0303]); (0x0169, [0x0075; 0x0303]); (0x01A0, [0x004F; 0x031B]);
   (0x01A1, [0x006F; 0x031B]); (0x01AF, [0x0055; 0x031B]); (0x01B0, [0x0075; 0x031B]);
   (0x1EA0, [0x0041; 0x0323]); (0x1EA1, [0x0061; 0x0323]); (0x1EA2, [0x0041; 0x0309]);
   (0x1EA3, [0x0061; 0x0309]); (0x1EA4, [0x0041; 0x0302; 0x0301]); (0x1EA5, [0x0061; 0x0302; 0x0301]);
   (0x1EA6, [0x0041; 0x0302; 0x0300]); (0x1EA7, [0x0061; 0x0302; 0x0300]); (0x1EA8, [0x0041; 0x0302; 0x0309]);
   (0x1EA9, [0x0061; 0x0302; 0x0309]); (0x1EAA, [0x0041; 0x0302; 0x0303]); (0x1EAB, [0x0061; 0x0302; 0x0303]);
   (0x1EAC, [0x0041; 0x0323; 0x0302]); (0x1EAD, [0x0061; 0x0323; 0x0302]); (0x1EAE, [0x0041; 0x0306; 0x0301]);
   (0x1EAF, [0x0061; 0x0306; 0x0301]); (0x1EB0, [0x0041; 0x0306; 0x0300]); (0x1EB1, [0x0061; 0x0306; 0x0300]);
   (0x1EB2, [0x0041; 0x0306; 0x0309]); (0x1EB3, [0x0061; 0x0306; 0x0309]); (0x1EB4, [0x0041; 0x0306; 0x0303]);
   (0x1EB5, [0x0061; 0x0306; 0x0303]); (0x1EB6, [0x0041; 0x0323; 0x0306]); (0x1EB7, [0x0061; 0x0323; 0x0306]);
   (0x1EB8, [0x0045; 0x0323]); (0x1EB9, [0x0065; 0x0323]); (0x1EBA, [0x0045; 0x0309]);
   (0x1EBB, [0x0065; 0x0309]); (0x1EBC, [0x0045; 0x0303]); (0x1EBD, [0x0065; 0x0303]);
   (0x1EBE, [0x0045; 0x0302; 0x0301]); (0x1EBF, [0x0065; 0x0302; 0x0301]); (0x1EC0, [0x0045; 0x0302; 0x0300]);
   (0x1EC1, [0x0065; 0x0302; 0x0300]); (0x1EC2, [0x0045; 0x0302; 0x0309]); (0x1EC3, [0x0065; 0x0302; 0x0309]);
   (0x1EC4, [0x0045; 0x0302; 0x0303]); (0x1EC5, [0x0065; 0x0302; 0x0303]); (0x1EC6, [0x0045; 0x0323; 0x0302]);
   (0x1EC7, [0x0065; 0x0323; 0x0302]); (0x1EC8, [0x0049; 0x0309]); (0x1EC9, [0x0069; 0x0309]);
   (0x1ECA, [0x0049; 0x0323]); (0x1ECB, [0x0069; 0x0323]); (0x1ECC, [0x004F; 0x0323]);
   (0x1ECD, [0x006F; 0x0323]); (0x1ECE, [0x004F; 0x0309]); (0x1ECF, [0x006F; 0x0309]);
   (0x1ED0, [0x004F; 0x0302; 0x0301]); (0x1ED1, [0x006F; 0x0302; 0x0301]); (0x1ED2, [0x004F; 0x0302; 0x0300]);
   (0x1ED3, [0x006F; 0x0302; 0x0300]); (0x1ED4, [0x004F; 0x0302; 0x0309]); (0x1ED5, [0x006F; 0x0302; 0x0309]);
   (0x1ED6, [0x004F; 0x0302; 0x0303]); (0x1ED7, [0x006F; 0x0302; 0x0303]); (0x1ED8, [0x004F; 0x0323; 0x0302]);
   (0x1ED9, [0x006F; 0x0323; 0x0302]); (0x1EDA, [0x004F; 0x031B; 0x0301]); (0x1EDB, [0x006F; 0x031B; 0x0301]);
   (0x1EDC, [0x004F; 0x031B; 0x0300]); (0x1EDD, [0x006F; 0x031B; 0x0300]); (0x1EDE, [0x004F; 0x031B; 0x0309]);
   (0x1EDF, [0x006F; 0x031B; 0x0309]); (0x1EE0, [0x004F; 0x031B; 0x0303]); (0x1EE1, [0x006F; 0x031B; 0x0303]);
   (0x1EE2, [0x004F; 0x031B; 0x0323]); (0x1EE3, [0x006F; 0x031B; 0x0323]); (0x1EE4, [0x0055; 0x0323]);
   (0x1EE5, [0x0075; 0x0323]); (0x1EE6, [0x0055; 0x0309]); (0x1EE7, [0x0075; 0x0309]);
   (0x1EE8, [0x0055; 0x031B; 0x0301]); (0x1EE9, [0x0075; 0x031B; 0x0301]); (0x1EEA, [0x0055; 0x031B; 0x0300]);
   (0x1EEB, [0x0075; 0x031B; 0x0300]); (0x1EEC, [0x0055; 0x031B; 0x0309]); (0x1EED, [0x0075; 0x031B; 0x0309]);
   (0x1EEE, [0x0055; 0x031B; 0x0303]); (0x1EEF, [0x0075; 0x031B; 0x0303]); (0x1EF0, [0x0055; 0x031B; 0x0323]);
   (0x1EF1, [0x0075; 0x031B; 0x0323]); (0x1EF2, [0x0059; 0x0300]); (0x1EF3, [0x0079; 0x0300]);
   (0x1EF4, [0x0059; 0x0323]); (0x1EF5, [0x0079; 0x0323]); (0x1EF6, [0x0059; 0x0309]);
   (0x1EF7, [0x0079; 0x0309]); (0x1EF8, [0x0059; 0x0303]); (0x1EF9, [0x0079; 0x0303])].

Definition combiningClasses : list (rune * rune * Z) :=
  [(0x0300, 0x0314, 230); (0x0315, 0x0315, 232); (0x0316, 0x0319, 220);
   (0x031A, 0x031A, 232); (0x031B, 0x031B, 216); (0x031C, 0x0320, 220);
   (0x0321, 0x0322, 202); (0x0323, 0x0326, 220); (0x0327, 0x0328, 202);
   (0x0329, 0x0333, 220); (0x0334, 0x0338, 1); (0x0339, 0x033C, 220);
   (0x033D, 0x0344, 230); (0x0345, 0x0345, 240); (0x0346, 0x0346, 230);
   (0x0347, 0x0349, 220); (0x034A, 0x034C, 230); (0x034D, 0x034E, 220);
   (0x0350, 0x0352, 230); (0x0353, 0x0356, 220); (0x0357, 0x0357, 230);
   (0x0358, 0x0358, 232); (0x0359, 0x035A, 220); (0x035B, 0x035B, 230);
   (0x035C, 0x035C, 233); (0x035D, 0x035E, 234); (0x035F, 0x035F, 233);
   (0x0360, 0x0361, 234); (0x0362, 0x0362, 233); (0x0363, 0x036F, 230);
   (0x1D165, 0x1D166, 216); (0x1D167, 0x1D169, 1); (0x1D16D, 0x1D16D, 226);
   (0x1D16E, 0x1D172, 216)].

Definition lowerCase : list (rune * rune) :=
  [(0x00C0, 0x00E0); (0x00C1, 0x00E1); (0x00C2, 0x00E2); (0x00C3, 0x00E3);
   (0x00C8, 0x00E8); (0x00C9, 0x00E9); (0x00CA, 0x00EA); (0x00CC, 0x00EC);
   (0x00CD, 0x00ED); (0x00D2, 0x00F2); (0x00D3, 0x00F3); (0x00D4, 0x00F4);
   (0x00D5, 0x00F5); (0x00D9, 0x00F9); (0x00DA, 0x00FA); (0x00DD, 0x00FD);
   (0x0102, 0x0103); (0x0110, 0x0111); (0x0128, 0x0129); (0x0168, 0x0169);
   (0x01A0, 0x01A1); (0x01AF, 0x01B0); (0x1EA0, 0x1EA1); (0x1EA2, 0x1EA3);
   (0x1EA4, 0x1EA5); (0x1EA6, 0x1EA7); (0x1EA8, 0x1EA9); (0x1EAA, 0x1EAB);
   (0x1EAC, 0x1EAD); (0x1EAE, 0x1EAF); (0x1EB0, 0x1EB1); (0x1EB2, 0x1EB3);
   (0x1EB4, 0x1EB5); (0x1EB6, 0x1EB7); (0x1EB8, 0x1EB9); (0x1EBA, 0x1EBB);
   (0x1EBC, 0x1EBD); (0x1EBE, 0x1EBF); (0x1EC0, 0x1EC1); (0x1EC2, 0x1EC3);
   (0x1EC4, 0x1EC5); (0x1EC6, 0x1EC7); (0x1EC8, 0x1EC9); (0x1ECA, 0x1ECB);
   (0x1ECC, 0x1ECD); (0x1ECE, 0x1ECF); (0x1ED0, 0x1ED1); (0x1ED2, 0x1ED3);
   (0x1ED4, 0x1ED5); (0x1ED6, 0x1ED7); (0x1ED8, 0x1ED9); (0x1EDA, 0x1EDB);
   (0x1EDC, 0x1EDD); (0x1EDE, 0x1EDF); (0x1EE0, 0x1EE1); (0x1EE2, 0x1EE3);
   (0x1EE4, 0x1EE5); (0x1EE6, 0x1EE7); (0x1EE8, 0x1EE9); (0x1EEA, 0x1EEB);
   (0x1EEC, 0x1EED); (0x1EEE, 0x1EEF); (0x1EF0, 0x1EF1); (0x1EF2, 0x1EF3);
   (0x1EF4, 0x1EF5); (0x1EF6, 0x1EF7); (0x1EF8, 0x1EF9)].

Fixpoint assoc {B : Type} (r : rune) (rows : list (rune * B)) : option B :=
  match rows with
  | [] => None
  | (k, v) :: rows' => if r =? k then Some v else assoc r rows'
  end.

Fixpoint classOf (r : rune) (rows : list (rune * rune * Z)) : Z :=
  match rows with
  | [] => 0
  | (lo, hi, k) :: rows' => if (lo <=? r) && (r <=? hi) then k else classOf r rows'
  end.

Definition decomp (r : rune) : list rune :=
  match assoc r decompositions with
  | Some d => d
  | None => [r]
  end.

Definition isMn (r : rune) : bool :=
  ((0x0300 <=? r) && (r <=? 0x036F)) || ((0x1D167 <=? r) && (r <=? 0x1D169)).

Definition lower (r : rune) : rune :=
  if (65 <=? r) && (r <=? 90) then r + 32
  else match assoc r lowerCase with
       | Some l => l
       | None => r
       end.

Definition latin : UCD :=
  {| ucd_decomp := decomp;
     ucd_ccc := fun r => classOf r combiningClasses;
     ucd_Mn := isMn;
     ucd_lower := lower |}.

End ucd.

(** "Da Nang" written with its diacritics, precomposed: U+0110 U+00E0,
    space, N U+1EB5 n g. *)
Definition DaNang : gostring := [0x110; 0xE0; 0x20; 0x4E; 0x1EB5; 0x6E; 0x67].

(** "Viet Nam" written with its diacritics: V i U+1EC7 t, space, N a m. *)
Definition VietNam : gostring := [0x56; 0x69; 0x1EC7; 0x74; 0x20; 0x4E; 0x61; 0x6D].

(** The same name with its letters decomposed: D-stroke, a, grave,
    space, N, a, breve, tilde, n, g. *)
Definition DaNangDecomposed : gostring :=
  [0x110; 0x61; 0x300; 0x20; 0x4E; 0x61; 0x306; 0x303; 0x6E; 0x67].

(** Musical augmentation dot (class 226, Mc), combining grapheme joiner
    (class 0, Mn), musical combining stem (class 216, Mc). *)
Definition dotJoinerStem : gostring := [0x1D16D; 0x034F; 0x1D165].

(** ** Loading the dictionary (both revisions)

    [loadDict] and [loadDictFromURL] act on the cache file and on the
    network.  The cache file is a piece of state; what the network and
    the JSON library answer is given: the outcome of the one
    [http.Get], and the JSON codec as functions. *)

Definition bytes : Type := list Byte.byte.

Record SubDict : Type := {
  Example : gostring;
  SubPos : gostring;
  Def : gostring;
  Pos : gostring
}.

(** [encoding/json] on [map[string][]SubDict], and the order in which a
    [range] visits the keys of such a map.  [Marshal] has no error
    case: the program drops its error. *)
Record Json : Type := {
  dictionary : Type;
  Unmarshal : bytes -> option dictionary;
  Decode : bytes -> option dictionary;
  Marshal : dictionary -> bytes;
  rangeKeys : dictionary -> list gostring
}.

(** The cache file: [os.Stat] fails, or it succeeds and [os.ReadFile]
    fails, or the file is read. *)
Inductive file : Type :=
| Missing
| Unreadable
| Content (data : bytes).

(** [writable]: whether [os.WriteFile] on the cache path succeeds; a
    write that fails leaves the file as it was. *)
Record World : Type := {
  cache : file;
  writable : bool
}.

(** What [http.Get] comes back with. *)
Inductive response : Type :=
| GetError
| Response (status : Z) (body : bytes).

Inductive loadError : Type :=
| ErrGet                 (* the error of [http.Get] *)
| ErrStatus (code : Z)   (* "failed to fetch: status %d" *)
| ErrDecode.             (* the error of [dec.Decode] *)

(** What a call does to the outside, in order. *)
Inductive event : Type :=
| Fetched
| Wrote (data : bytes).

Definition loadDictFromURL (J : Json) (net : response) : dictionary J + loadError :=
  match net with
  | GetError => inr ErrGet
  | Response status body =>
      if negb (status =? 200) then inr (ErrStatus status)
      else match Decode J body with
           | Some dict => inl dict
           | None => inr ErrDecode
           end
  end.

(** The part of [loadDict] after the cache was found of no use. *)
Definition fetchAndCache (J : Json) (w : World) (net : response)
    : (dictionary J + loadError) * World * list event :=
  match loadDictFromURL J net with
  | inr err => (inr err, w, [Fetched])
  | inl dict =>
      let data := Marshal J dict in
      (inl dict,
       if writable w then {| cache := Content data; writable := true |} else w,
       [Fetched; Wrote data])
  end.

Definition loadDict (J : Json) (w : World) (net : response)
    : (dictionary J + loadError) * World * list event :=
  match cache w with
  | Content data =>
      match Unmarshal J data with
      | Some dict => (inl dict, w, [])
      | None => fetchAndCache J w net
      end
  | Missing | Unreadable => fetchAndCache J w net
  end.

(** [dict, _ := loadDict(url)] in [main]: the words the prompt ranges
    over.  After an error [dict] is the nil map, with no key. *)
Definition loadedWords (J : Json) (w : World) (net : response) : list gostring :=
  match fst (fst (loadDict J w net)) with
  | inl dict => rangeKeys J dict
  | inr _ => []
  end.

(** A JSON codec to try the loader on: a dictionary is the text of its
    file, and has no key to range over. *)
Definition plainJson : Json :=
  {| dictionary := bytes;
     Unmarshal := fun data => Some data;
     Decode := fun data => Some data;
     Marshal := fun dict => dict;
     rangeKeys := fun _ => [] |}.

(** * The vocabulary of the statements *)

(** One template syllable against one word syllable of the same length:
    every literal cell agrees ... *)
Definition cellsOK (pw tw : gostring) : bool :=
  forallb (fun '(p, t) => (p =? star) || (p =? t)) (combine pw tw).

(** ... and the runes under the wildcard cells. *)
Definition captured (pw tw : gostring) : list rune :=
  flat_map (fun '(p, t) => if p =? star then [t] else []) (combine pw tw).

Definition wordsOK (ps ts : list gostring) : bool :=
  forallb (fun '(pw, tw) => (length pw =? length tw)%nat && cellsOK pw tw) (combine ps ts).

Definition capturedAll (ps ts : list gostring) : list rune :=
  flat_map (fun '(pw, tw) => captured pw tw) (combine ps ts).

(** The template syllables and the word syllables [matchWildcard] compares. *)
Definition template (pattern : gostring) : list gostring :=
  strings.Split (Rev2.normalizeSpaces pattern) space.

Definition syllables (text : gostring) : list gostring :=
  strings.Split text space.

Definition wildcardFormula (pattern text required excluded : gostring) : bool :=
  let ps := template pattern in
  let ts := syllables text in
  (length ps =? length ts)%nat
  && wordsOK ps ts
  && forallb (strings.ContainsRune (capturedAll ps ts)) required
  && negb (existsb (strings.ContainsRune (capturedAll ps ts)) excluded).

(** The template matches the word positionally: as many syllables, each
    of the same length, and every literal cell equal to the rune of the
    word at its position. *)
Definition positional (ps ts : list gostring) : Prop :=
  length ps = length ts /\
  forall i pw tw, nth_error ps i = Some pw -> nth_error ts i = Some tw ->
    length pw = length tw /\
    forall j p t, nth_error pw j = Some p -> nth_error tw j = Some t -> p <> star -> p = t.

(** [c] is a rune of the word under a wildcard cell of the template. *)
Definition capturedAt (ps ts : list gostring) (c : rune) : Prop :=
  exists i j pw tw,
    nth_error ps i = Some pw /\ nth_error ts i = Some tw /\
    nth_error pw j = Some star /\ nth_error tw j = Some c.

Definition nonEmpty (s : gostring) : bool :=
  match s with
  | [] => false
  | _ => true
  end.

(** The only white space of [text] is the space character, as in a word
    that went through [normalizeSpaces]. *)
Definition spacesOnly (text : gostring) : Prop :=
  forall c, In c text -> unicode.IsSpace c = true -> c = space.

Definition syllablesOK (parts : list gostring) (conds : list Rev1.SyllableCond) : bool :=
  forallb (fun '(part, c) => utf8.RuneCountInString part =? Rev1.Length c)
          (combine parts conds).

Definition syllableFormula (word : gostring) (conds : list Rev1.SyllableCond)
    (mustChars : gostring) : bool :=
  (length (strings.Fields word) =? length conds)%nat
  && syllablesOK (strings.Fields word) conds
  && forallb (strings.ContainsRune word) mustChars.

(** The length constraints: the parts [Atoi] reads, in order. *)
Definition numericParts (parts : list gostring) : list Rev1.SyllableCond :=
  flat_map (fun p => match strconv.Atoi p with
                     | Some n => [{| Rev1.Length := n |}]
                     | None => []
                     end) parts.

(** The must-contain string: the other parts, one after the other. *)
Definition otherParts (parts : list gostring) : gostring :=
  flat_map (fun p => match strconv.Atoi p with
                     | Some _ => []
                     | None => p
                     end) parts.

(** What the [switch] of [removeDiacritics] writes for a rune. *)
Definition substStroke (r : rune) : rune :=
  if r =? dstroke_small then d_small
  else if r =? dstroke_cap then d_cap
  else r.

(** Facts of the character data that the theorems below rest on.  The
    decomposition is full: the runes it yields decompose no further. *)
Definition decomposedFully (U : UCD) : Prop :=
  forall r c, In c (ucd_decomp U r) -> ucd_decomp U c = [c].

(** [r] is a letter without decomposition, of combining class 0. *)
Definition plainLetter (U : UCD) (r : rune) : Prop :=
  ucd_decomp U r = [r] /\ ucd_ccc U r = 0 /\ ucd_Mn U r = false.

(** Every rune of the decomposition of [s] that has a combining class
    is a non-spacing mark: no rune that [removeDiacritics] keeps can be
    reordered.  It holds of Latin and Vietnamese text, whose combining
    runes are the diacritical marks. *)
Definition marksAreMn (U : UCD) (s : gostring) : Prop :=
  forall c, In c (flat_map (ucd_decomp U) s) -> ucd_Mn U c = false -> ucd_ccc U c = 0.

(** White space collapsed, in the words of the spec: the runes of a
    string with every run of white space between two syllables turned
    into one space, and the white space before the first syllable and
    after the last one left out.  [started]: a syllable has been
    written; [gap]: white space was read since. *)
Fixpoint collapseFrom (started gap : bool) (s : gostring) : gostring :=
  match s with
  | [] => []
  | c :: s' =>
      if unicode.IsSpace c then collapseFrom started true s'
      else (if started && gap then [space; c] else [c]) ++ collapseFrom true false s'
  end.

Definition collapseSpaces (s : gostring) : gostring := collapseFrom false false s.

(** The comparison form of a dictionary word, in the words of the spec:
    the word without its diacritics, in lower case, with its white
    space collapsed to single spaces. *)
Definition comparisonForm (U : UCD) (word : gostring) : gostring :=
  collapseSpaces (strings.ToLower U (removeDiacritics U word)).

(** Facts of the character data about white space: a white-space rune
    decomposes to one white-space rune, has combining class 0 and is no
    mark; no other rune decomposes to white space; the lower-case
    mapping keeps white space and nothing else as white space; the
    space itself is left alone. *)
Definition whiteSpaceKept (U : UCD) : Prop :=
  (forall c, unicode.IsSpace c = true ->
     exists c', ucd_decomp U c = [c'] /\ unicode.IsSpace c' = true)
  /\ (forall c, unicode.IsSpace c = true -> ucd_ccc U c = 0 /\ ucd_Mn U c = false)
  /\ (forall c r, unicode.IsSpace c = false -> In r (ucd_decomp U c) ->
        unicode.IsSpace r = false)
  /\ (forall c, unicode.IsSpace (ucd_lower U c) = unicode.IsSpace c)
  /\ ucd_decomp U space = [space]
  /\ ucd_lower U space = space.

(** Every syllable of the word keeps a rune when its diacritics are
    stripped: none is made of marks only. *)
Definition keepsSyllables (U : UCD) (word : gostring) : Prop :=
  Forall (fun f => removeDiacritics U f <> []) (strings.Fields word).

(** The word, once stripped, has no capital letter. *)
Definition lowerCaseWord (U : UCD) (word : gostring) : Prop :=
  strings.ToLower U (removeDiacritics U word) = removeDiacritics U word.

(** The white-space runes, one by one. *)
Definition whiteSpaces : list rune :=
  [9; 10; 11; 12; 13; 0x20; 0x85; 0xA0; 0x1680;
   0x2000; 0x2001; 0x2002; 0x2003; 0x2004; 0x2005; 0x2006; 0x2007; 0x2008;
   0x2009; 0x200A; 0x2028; 0x2029; 0x202F; 0x205F; 0x3000].

Definition isDirective (query : gostring) : bool :=
  eqs query (str "!quit") || eqs query (str "!help") || eqs query (str "!clear").

(** [main] of the first revision, were it to compare every word in its
    comparison form: the words it would print for a query. *)
Definition mainOnComparisonForm (U : UCD) (dict : list gostring)
    (line : gostring) : Prop :=
  let query := strings.TrimSpace line in
  Rev1.main U dict line
  = Ok (Printed
          (filter
             (fun word =>
                if strings.ContainsRune query hyphen
                then holds (Rev1.matchSyllablePatternWithChars
                              (comparisonForm U word)
                              (fst (Rev1.parsePattern query))
                              (snd (Rev1.parsePattern query)))
                else holds (Rev1.matchWildcard
                              (strings.ToLower U (removeDiacritics U query))
                              (comparisonForm U word)))
             dict)).

(** The parts of a query of [ui] by their first rune: letters to
    exclude, letters to require, and the rest. *)
Definition isExcluded (part : gostring) : bool :=
  match part with
  | c :: _ => c =? hyphen
  | [] => false
  end.

Definition isRequired (part : gostring) : bool :=
  match part with
  | c :: _ => negb (c =? hyphen) && (c =? plus)
  | [] => false
  end.

Definition isPlain (part : gostring) : bool :=
  negb (isExcluded part) && negb (isRequired part).

(** The sum of the lengths a hyphen query asks for. *)
Definition totalLength (conds : list Rev1.SyllableCond) : Z :=
  fold_right (fun c n => Rev1.Length c + n) 0 conds.

(** The runes of a word that are not white space. *)
Definition letters (word : gostring) : gostring :=
  filter (fun c => negb (unicode.IsSpace c)) word.

Definition blank (s : gostring) : Prop :=
  Forall (fun c => unicode.IsSpace c = true) s.

(** * Loops *)

Section Loops.

Context {A S : Type}.

(** A loop whose body only checks its element, as the loops over
    [required], [excluded] and [mustChars] do. *)
Lemma forRange_check (bad : A -> bool) (xs : list A) :
  forRange xs (fun x (_ : unit) => if bad x then Ok (Return false) else Ok (Next tt)) tt
  = Ok (if existsb bad xs then Return false else Next tt).
Proof.
  induction xs as [|x xs IH]; simpl; [reflexivity|].
  destruct (bad x); simpl; [reflexivity|exact IH].
Qed.

Lemma forEach_filter (f : A -> result bool) (g : A -> bool) (xs acc : list A) :
  (forall x, f x = Ok (g x)) ->
  forEach xs (fun x out => m <- f x ;; Ok (if m then out ++ [x] else out)) acc
  = Ok (acc ++ filter g xs).
Proof.
  intros Hf. revert acc.
  induction xs as [|x xs IH]; intros acc; simpl.
  - now rewrite app_nil_r.
  - rewrite Hf. simpl. rewrite IH. destruct (g x); [|reflexivity].
    now rewrite <- app_assoc.
Qed.

Lemma nth_error_skipn (l : list A) (k : nat) :
  (k < length l)%nat ->
  exists x, nth_error l k = Some x /\ skipn k l = x :: skipn (Datatypes.S k) l.
Proof.
  revert k. induction l as [|a l IH]; intros k Hk; simpl in Hk; [lia|].
  destruct k as [|k].
  - exists a. split; reflexivity.
  - destruct (IH k) as [x [H1 H2]]; [lia|].
    exists x. split; [exact H1|exact H2].
Qed.

End Loops.

(** * The wildcard matcher of the second revision, as a formula *)

Lemma cell_loop_from (pw tw : gostring) (n k : nat) (acc : list rune) :
  (k + n = length pw)%nat -> length pw = length tw ->
  forRange (seq k n) (Rev2.cellBody pw tw) acc
  = Ok (if cellsOK (skipn k pw) (skipn k tw)
        then Next (acc ++ captured (skipn k pw) (skipn k tw))
        else Return false).
Proof.
  revert k acc. induction n as [|n IH]; intros k acc Hk Hlen.
  - rewrite (skipn_all2 pw) by lia. simpl. now rewrite app_nil_r.
  - destruct (nth_error_skipn pw k) as [p [Hp Hsp]]; [lia|].
    destruct (nth_error_skipn tw k) as [t [Ht Hst]]; [lia|].
    rewrite Hsp, Hst. cbn [seq forRange].
    unfold Rev2.cellBody at 1. unfold index. rewrite Hp, Ht.
    unfold cellsOK, captured. cbn [bind combine forallb flat_map].
    destruct (p =? star) eqn:Estar; cbn [orb andb negb bind].
    + rewrite IH by lia. unfold cellsOK, captured.
      destruct (forallb _ _); [|reflexivity].
      now rewrite <- app_assoc.
    + destruct (p =? t) eqn:Ept; cbn [negb andb app bind].
      * now rewrite IH by lia.
      * reflexivity.
Qed.

Lemma cell_loop (pw tw : gostring) (acc : list rune) :
  length pw = length tw ->
  forRange (indices pw) (Rev2.cellBody pw tw) acc
  = Ok (if cellsOK pw tw then Next (acc ++ captured pw tw) else Return false).
Proof.
  intros Hlen. unfold indices.
  now rewrite (cell_loop_from pw tw (length pw) 0 acc) by (simpl; lia).
Qed.

Lemma word_loop_from (ps ts : list gostring) (n k : nat) (acc : list rune) :
  (k + n = length ps)%nat -> length ps = length ts ->
  forRange (seq k n) (Rev2.wordBody ps ts) acc
  = Ok (if wordsOK (skipn k ps) (skipn k ts)
        then Next (acc ++ capturedAll (skipn k ps) (skipn k ts))
        else Return false).
Proof.
  revert k acc. induction n as [|n IH]; intros k acc Hk Hlen.
  - rewrite (skipn_all2 ps) by lia. simpl. now rewrite app_nil_r.
  - destruct (nth_error_skipn ps k) as [pw [Hp Hsp]]; [lia|].
    destruct (nth_error_skipn ts k) as [tw [Ht Hst]]; [lia|].
    rewrite Hsp, Hst. cbn [seq forRange].
    unfold Rev2.wordBody at 1. unfold index. rewrite Hp, Ht.
    unfold wordsOK, capturedAll. cbn [bind combine forallb flat_map].
    destruct (length pw =? length tw)%nat eqn:El; cbn [negb andb bind].
    + apply Nat.eqb_eq in El. rewrite (cell_loop pw tw acc El).
      destruct (cellsOK pw tw); cbn [bind andb].
      * rewrite IH by lia. unfold wordsOK, capturedAll.
        destruct (forallb _ _); [|reflexivity].
        now rewrite <- app_assoc.
      * reflexivity.
    + reflexivity.
Qed.

Lemma matchWildcard_formula (pattern text required excluded : gostring) :
  Rev2.matchWildcard pattern text required excluded
  = Ok (wildcardFormula pattern text required excluded).
Proof.
  unfold Rev2.matchWildcard, wildcardFormula.
  fold (template pattern). fold (syllables text).
  destruct (length (template pattern) =? length (syllables text))%nat eqn:El;
    cbn [negb andb]; [|reflexivity].
  apply Nat.eqb_eq in El. unfold indices.
  rewrite (word_loop_from _ _ (length (template pattern)) 0 []) by (simpl; lia).
  cbn [skipn app].
  destruct (wordsOK (template pattern) (syllables text)); cbn [bind andb]; [|reflexivity].
  rewrite (forRange_check
             (fun ch => negb (strings.ContainsRune (capturedAll (template pattern) (syllables text)) ch))).
  rewrite (forRange_check
             (strings.ContainsRune (capturedAll (template pattern) (syllables text)))).
  assert (Hreq : forall w req,
             existsb (fun ch => negb (strings.ContainsRune w ch)) req
             = negb (forallb (strings.ContainsRune w) req)).
  { intros w req. induction req as [|c req IH]; simpl; [reflexivity|].
    rewrite IH. now destruct (strings.ContainsRune w c). }
  rewrite Hreq.
  destruct (forallb _ required); cbn [negb bind andb]; [|reflexivity].
  destruct (existsb _ excluded); reflexivity.
Qed.

(** * Reading the formula position by position *)

Section Zipped.

Context {A B C : Type}.

Lemma forallb_combine (f : A * B -> bool) (l1 : list A) (l2 : list B) :
  forallb f (combine l1 l2) = true <->
  (forall i a b, nth_error l1 i = Some a -> nth_error l2 i = Some b -> f (a, b) = true).
Proof.
  revert l2. induction l1 as [|x l1 IH]; intros l2.
  - simpl. split; [|reflexivity]. intros _ i a b H. now destruct i.
  - destruct l2 as [|y l2].
    + simpl. split; [|reflexivity]. intros _ i a b _ H. now destruct i.
    + simpl. rewrite andb_true_iff, IH. split.
      * intros [Hxy Hrest] i a b Ha Hb. destruct i as [|i]; simpl in Ha, Hb.
        -- now inversion Ha; inversion Hb; subst.
        -- now apply (Hrest i).
      * intros H. split.
        -- now apply (H 0%nat).
        -- intros i a b Ha Hb. now apply (H (Datatypes.S i)).
Qed.

Lemma in_flat_map_combine (f : A * B -> list C) (l1 : list A) (l2 : list B) (c : C) :
  In c (flat_map f (combine l1 l2)) <->
  (exists i a b, nth_error l1 i = Some a /\ nth_error l2 i = Some b /\ In c (f (a, b))).
Proof.
  revert l2. induction l1 as [|x l1 IH]; intros l2.
  - simpl. split; [tauto|]. intros [i [a [b [H _]]]]. now destruct i.
  - destruct l2 as [|y l2].
    + simpl. split; [tauto|]. intros [i [a [b [_ [H _]]]]]. now destruct i.
    + simpl. rewrite in_app_iff, IH. split.
      * intros [H|[i [a [b [Ha [Hb Hc]]]]]].
        -- now exists 0%nat, x, y.
        -- now exists (Datatypes.S i), a, b.
      * intros [i [a [b [Ha [Hb Hc]]]]]. destruct i as [|i]; simpl in Ha, Hb.
        -- left. now inversion Ha; inversion Hb; subst.
        -- right. now exists i, a, b.
Qed.

End Zipped.

Lemma ContainsRune_In (s : gostring) (r : rune) :
  strings.ContainsRune s r = true <-> In r s.
Proof.
  unfold strings.ContainsRune. rewrite existsb_exists. split.
  - intros [c [Hc E]]. apply Z.eqb_eq in E. now subst.
  - intros H. exists r. split; [exact H|apply Z.eqb_refl].
Qed.

Lemma cellsOK_spec (pw tw : gostring) :
  cellsOK pw tw = true <->
  (forall j p t, nth_error pw j = Some p -> nth_error tw j = Some t -> p <> star -> p = t).
Proof.
  unfold cellsOK. rewrite forallb_combine. split; intros H j p t Hp Ht.
  - intros Hne. specialize (H j p t Hp Ht). apply orb_true_iff in H.
    destruct H as [H|H]; apply Z.eqb_eq in H; [contradiction|exact H].
  - destruct (Z.eqb_spec p star) as [|Hne]; [reflexivity|].
    simpl. apply Z.eqb_eq. now apply (H j).
Qed.

Lemma captured_spec (pw tw : gostring) (c : rune) :
  In c (captured pw tw) <->
  (exists j, nth_error pw j = Some star /\ nth_error tw j = Some c).
Proof.
  unfold captured. rewrite in_flat_map_combine. split.
  - intros [j [p [t [Hp [Ht Hc]]]]]. exists j.
    destruct (Z.eqb_spec p star) as [->|]; simpl in Hc; [|contradiction].
    destruct Hc as [->|[]]. now split.
  - intros [j [Hp Ht]]. exists j, star, c. simpl. now repeat split; try left.
Qed.

Lemma wordsOK_spec (ps ts : list gostring) :
  wordsOK ps ts = true <->
  (forall i pw tw, nth_error ps i = Some pw -> nth_error ts i = Some tw ->
     length pw = length tw /\ cellsOK pw tw = true).
Proof.
  unfold wordsOK. rewrite forallb_combine. split; intros H i pw tw Hp Ht.
  - specialize (H i pw tw Hp Ht). apply andb_true_iff in H.
    destruct H as [H1 H2]. apply Nat.eqb_eq in H1. now split.
  - destruct (H i pw tw Hp Ht) as [H1 H2].
    apply andb_true_iff. split; [now apply Nat.eqb_eq|exact H2].
Qed.

Lemma positional_spec (ps ts : list gostring) :
  positional ps ts <-> ((length ps =? length ts)%nat && wordsOK ps ts = true).
Proof.
  unfold positional. rewrite andb_true_iff, Nat.eqb_eq, wordsOK_spec. split.
  - intros [Hl H]. split; [exact Hl|]. intros i pw tw Hp Ht.
    destruct (H i pw tw Hp Ht) as [H1 H2]. split; [exact H1|].
    now apply cellsOK_spec.
  - intros [Hl H]. split; [exact Hl|]. intros i pw tw Hp Ht.
    destruct (H i pw tw Hp Ht) as [H1 H2]. split; [exact H1|].
    now apply cellsOK_spec.
Qed.

Lemma capturedAll_spec (ps ts : list gostring) (c : rune) :
  In c (capturedAll ps ts) <-> capturedAt ps ts c.
Proof.
  unfold capturedAll, capturedAt. rewrite in_flat_map_combine. split.
  - intros [i [pw [tw [Hp [Ht Hc]]]]]. apply captured_spec in Hc.
    destruct Hc as [j [Hj1 Hj2]]. now exists i, j, pw, tw.
  - intros [i [j [pw [tw [Hp [Ht [Hj1 Hj2]]]]]]]. exists i, pw, tw.
    repeat split; try assumption. apply captured_spec. now exists j.
Qed.

(** C1.  When the template matches the word positionally, the match
    succeeds exactly when every required rune is among the runes under
    the wildcard cells and no excluded rune is; the runes at literal
    positions play no part.  "viet ***" against "viet hoa" with "oh"
    excluded fails, and against "viet ngu" with "a" required fails; an
    excluded "v", met only at a literal position of "viet nam", does
    not make the match fail, and a required "v" is not found there. *)
Theorem matchWildcard_required_excluded_scope :
  (forall pattern text required excluded : gostring,
     positional (template pattern) (syllables text) ->
     (Rev2.matchWildcard pattern text required excluded = Ok true <->
      (forall c, In c required -> capturedAt (template pattern) (syllables text) c) /\
      (forall c, In c excluded -> ~ capturedAt (template pattern) (syllables text) c)))
  /\ Rev2.matchWildcard (str "viet ***") (str "viet hoa") (str "") (str "oh") = Ok false
  /\ Rev2.matchWildcard (str "viet ***") (str "viet ngu") (str "a") (str "") = Ok false
  /\ Rev2.matchWildcard (str "viet ***") (str "viet nam") (str "") (str "v") = Ok true
  /\ Rev2.matchWildcard (str "viet ***") (str "viet nam") (str "v") (str "") = Ok false.
Proof.
  split; [|repeat split; rewrite matchWildcard_formula; reflexivity].
  intros pattern text required excluded Hpos.
  rewrite matchWildcard_formula. unfold wildcardFormula.
  apply positional_spec in Hpos. cbv zeta. rewrite Hpos. cbn [andb].
  split.
  - intros H. injection H as H. apply andb_true_iff in H. destruct H as [Hreq Hexc].
    split.
    + intros c Hc. apply capturedAll_spec, ContainsRune_In.
      rewrite forallb_forall in Hreq. now apply Hreq.
    + intros c Hc Hcap. apply capturedAll_spec, ContainsRune_In in Hcap.
      apply negb_true_iff in Hexc.
      assert (existsb (strings.ContainsRune (capturedAll (template pattern) (syllables text))) excluded = true)
        as Hex by (apply existsb_exists; now exists c).
      congruence.
  - intros [Hreq Hexc]. f_equal. apply andb_true_iff. split.
    + apply forallb_forall. intros c Hc.
      now apply ContainsRune_In, capturedAll_spec, Hreq.
    + apply negb_true_iff. apply not_true_is_false. intros Hex.
      apply existsb_exists in Hex. destruct Hex as [c [Hc Hin]].
      apply ContainsRune_In, capturedAll_spec in Hin. now apply (Hexc c).
Qed.

Lemma matchWildcard_required_excluded_scope_witness :
  positional (template (str "viet ***")) (syllables (str "viet tay")) /\
  (Rev2.matchWildcard (str "viet ***") (str "viet tay") (str "a") (str "oh") = Ok true <->
   (forall c, In c (str "a") ->
      capturedAt (template (str "viet ***")) (syllables (str "viet tay")) c) /\
   (forall c, In c (str "oh") ->
      ~ capturedAt (template (str "viet ***")) (syllables (str "viet tay")) c)).
Proof.
  assert (H : positional (template (str "viet ***")) (syllables (str "viet tay")))
    by (apply positional_spec; reflexivity).
  split; [exact H|].
  exact (proj1 matchWildcard_required_excluded_scope
           (str "viet ***") (str "viet tay") (str "a") (str "oh") H).
Defined.

(** * Fields, Split and Join *)

Lemma fieldsFrom_ok (cur s : gostring) :
  Forall (fun c => unicode.IsSpace c = false) cur ->
  Forall (fun f => f <> [] /\ Forall (fun c => unicode.IsSpace c = false) f)
         (strings.fieldsFrom cur s).
Proof.
  revert cur. induction s as [|c s IH]; intros cur Hcur; simpl.
  - destruct cur as [|x cur]; constructor; [|constructor].
    split; [discriminate|exact Hcur].
  - destruct (unicode.IsSpace c) eqn:Ec.
    + destruct cur as [|x cur].
      * apply IH. constructor.
      * constructor; [split; [discriminate|exact Hcur]|].
        apply IH. constructor.
    + apply IH. apply Forall_app. split; [exact Hcur|].
      constructor; [exact Ec|constructor].
Qed.

Lemma Fields_ok (s : gostring) :
  Forall (fun f => f <> [] /\ Forall (fun c => unicode.IsSpace c = false) f)
         (strings.Fields s).
Proof. apply fieldsFrom_ok. constructor. Qed.

Lemma fieldsFrom_nil (cur s : gostring) :
  strings.fieldsFrom cur s = [] <->
  cur = [] /\ Forall (fun c => unicode.IsSpace c = true) s.
Proof.
  revert cur. induction s as [|c s IH]; intros cur; simpl.
  - destruct cur; split; intros H; try discriminate.
    + now split.
    + reflexivity.
    + now destruct H.
  - destruct (unicode.IsSpace c) eqn:Ec.
    + destruct cur as [|x cur].
      * rewrite IH. split; intros [H1 H2]; split; try reflexivity.
        -- now constructor.
        -- now inversion H2.
      * split; [discriminate|]. now intros [H _].
    + rewrite IH. split; intros [H1 H2].
      * now destruct cur.
      * inversion H2; subst. congruence.
Qed.

Lemma Fields_nil (s : gostring) :
  strings.Fields s = [] <-> Forall (fun c => unicode.IsSpace c = true) s.
Proof.
  unfold strings.Fields. rewrite fieldsFrom_nil. tauto.
Qed.

Lemma splitFrom_app (sep : rune) (cur f rest : gostring) :
  ~ In sep f ->
  strings.splitFrom sep cur (f ++ rest) = strings.splitFrom sep (cur ++ f) rest.
Proof.
  revert cur. induction f as [|c f IH]; intros cur Hf; simpl.
  - now rewrite app_nil_r.
  - destruct (Z.eqb_spec c sep) as [->|Hne].
    + exfalso. apply Hf. now left.
    + rewrite IH by (intros H; apply Hf; now right).
      now rewrite <- app_assoc.
Qed.

Lemma Split_Join (sep : rune) (fs : list gostring) :
  fs <> [] -> Forall (fun f => ~ In sep f) fs ->
  strings.Split (strings.Join fs sep) sep = fs.
Proof.
  unfold strings.Split.
  induction fs as [|f fs IH]; intros Hne Hfs; [contradiction|].
  inversion Hfs as [|? ? Hf Hrest]; subst.
  destruct fs as [|f' fs].
  - simpl. rewrite <- (app_nil_r f) at 1.
    now rewrite splitFrom_app.
  - change (strings.Join (f :: f' :: fs) sep) with (f ++ sep :: strings.Join (f' :: fs) sep).
    rewrite splitFrom_app by exact Hf. simpl.
    rewrite Z.eqb_refl. f_equal. apply IH; [discriminate|exact Hrest].
Qed.

Lemma template_Fields (pattern : gostring) :
  template pattern
  = match strings.Fields pattern with
    | [] => [[]]
    | fs => fs
    end.
Proof.
  unfold template, Rev2.normalizeSpaces.
  destruct (strings.Fields pattern) as [|f fs] eqn:E; [reflexivity|].
  apply Split_Join; [discriminate|].
  rewrite <- E.
  eapply Forall_impl; [|apply Fields_ok].
  intros g [_ Hg] Hin. rewrite Forall_forall in Hg.
  specialize (Hg _ Hin). discriminate.
Qed.

Lemma fieldsFrom_splitFrom (cur s : gostring) :
  spacesOnly s ->
  strings.fieldsFrom cur s = filter nonEmpty (strings.splitFrom space cur s).
Proof.
  revert cur. induction s as [|c s IH]; intros cur Hs; simpl.
  - now destruct cur.
  - assert (Hs' : spacesOnly s) by (intros x Hx; apply Hs; now right).
    destruct (unicode.IsSpace c) eqn:Ec.
    + rewrite (Hs c) by (try left; auto). rewrite Z.eqb_refl. simpl.
      rewrite IH by exact Hs'. now destruct cur.
    + destruct (Z.eqb_spec c space) as [->|Hne]; [discriminate|].
      now apply IH.
Qed.

Lemma Fields_syllables (text : gostring) :
  spacesOnly text ->
  strings.Fields text = filter nonEmpty (syllables text).
Proof. apply fieldsFrom_splitFrom. Qed.

Lemma filter_all {A : Type} (f : A -> bool) (l : list A) :
  Forall (fun x => f x = true) l -> filter f l = l.
Proof.
  induction 1 as [|x l Hx _ IH]; simpl; [reflexivity|].
  now rewrite Hx, IH.
Qed.

Lemma positional_nonEmpty (ps ts : list gostring) :
  positional ps ts ->
  Forall (fun f => f <> []) ps ->
  Forall (fun f => nonEmpty f = true) ts.
Proof.
  intros [Hlen Hpos] Hps. apply Forall_forall. intros tw Hin.
  apply In_nth_error in Hin. destruct Hin as [i Hi].
  assert (Hlt : (i < length ps)%nat).
  { rewrite Hlen. apply nth_error_Some. congruence. }
  destruct (nth_error_skipn ps i Hlt) as [pw [Hpw _]].
  destruct (Hpos i pw tw Hpw Hi) as [Hl _].
  rewrite Forall_forall in Hps.
  specialize (Hps pw (nth_error_In _ _ Hpw)).
  destruct tw; [|reflexivity]. destruct pw; [contradiction|discriminate].
Qed.

(** When the template matches positionally a word whose white space is
    only spaces, the syllables compared are the fields of the two. *)
Lemma positional_Fields (pattern text : gostring) :
  spacesOnly text ->
  positional (template pattern) (syllables text) ->
  length (strings.Fields pattern) = length (strings.Fields text) /\
  (strings.Fields pattern <> [] ->
   template pattern = strings.Fields pattern /\ syllables text = strings.Fields text).
Proof.
  intros Hsp Hpos. rewrite (Fields_syllables text Hsp).
  rewrite template_Fields in Hpos.
  destruct (strings.Fields pattern) as [|f fs] eqn:E.
  - split; [|congruence].
    destruct Hpos as [Hlen Hpos].
    destruct (syllables text) as [|tw [|tw' ts]]; try discriminate.
    destruct (Hpos 0%nat [] tw eq_refl eq_refl) as [Hl _].
    now destruct tw.
  - assert (Hne : Forall (fun g => nonEmpty g = true) (syllables text)).
    { apply (positional_nonEmpty _ _ Hpos). rewrite <- E.
      eapply Forall_impl; [|apply Fields_ok]. now intros g [Hg _]. }
    rewrite (filter_all _ _ Hne). split; [apply Hpos|].
    intros _. split; [|reflexivity].
    rewrite template_Fields, E. reflexivity.
Qed.

Lemma matchWildcard_true_positional (pattern text required excluded : gostring) :
  Rev2.matchWildcard pattern text required excluded = Ok true ->
  positional (template pattern) (syllables text).
Proof.
  rewrite matchWildcard_formula. unfold wildcardFormula. intros H.
  injection H as H. apply positional_spec.
  destruct ((length (template pattern) =? length (syllables text))%nat
            && wordsOK (template pattern) (syllables text)); [reflexivity|].
  discriminate.
Qed.

Lemma matchWildcard_not_true (pattern text required excluded : gostring) :
  Rev2.matchWildcard pattern text required excluded <> Ok true ->
  Rev2.matchWildcard pattern text required excluded = Ok false.
Proof.
  rewrite matchWildcard_formula.
  destruct (wildcardFormula pattern text required excluded); congruence.
Qed.

Lemma Join_In (fs : list gostring) (sep c : rune) :
  In c (strings.Join fs sep) -> c = sep \/ exists f, In f fs /\ In c f.
Proof.
  induction fs as [|f fs IH]; [intros []|].
  destruct fs as [|f' fs].
  - simpl. intros H. right. exists f. now split; [left|].
  - change (strings.Join (f :: f' :: fs) sep) with (f ++ sep :: strings.Join (f' :: fs) sep).
    intros H. apply in_app_or in H. destruct H as [H|[H|H]].
    + right. exists f. now split; [left|].
    + now left.
    + destruct (IH H) as [E|[g [Hg Hc]]]; [now left|].
      right. exists g. now split; [right|].
Qed.

(** A word that went through [normalizeSpaces] has no white space but
    single spaces. *)
Lemma normalizeSpaces_spacesOnly (word : gostring) :
  spacesOnly (Rev2.normalizeSpaces word).
Proof.
  intros c Hc Hs. apply Join_In in Hc. destruct Hc as [E|[f [Hf Hc]]]; [exact E|].
  pose proof (Fields_ok word) as Hok. rewrite Forall_forall in Hok.
  destruct (Hok f Hf) as [_ Hns]. rewrite Forall_forall in Hns.
  specialize (Hns c Hc). congruence.
Qed.

(** A tab is white space to [strings.Fields] and a rune like any other
    to [matchWildcard], which splits the word at spaces only: without
    [spacesOnly] a wildcard cell may cover the gap between two fields. *)
Example wildcard_cell_covers_a_tab :
  length (strings.Fields (str "a*b")) = 1%nat /\
  length (strings.Fields [97; 9; 98]) = 2%nat /\
  Rev2.matchWildcard (str "a*b") [97; 9; 98] (str "") (str "") = Ok true.
Proof. repeat split. Qed.

(** C3.  For a word whose white space is only single spaces, the
    wildcard matcher answers false when the pattern and the word have
    different numbers of syllables, when some template syllable and the
    word syllable at its place have different rune counts, or when a
    literal cell of the template differs from the rune of the word at
    its position.  "viet ***" matches "viet nam" and does not match
    "viet". *)
Theorem matchWildcard_shape_mismatch :
  (forall pattern text required excluded : gostring,
     spacesOnly text ->
     (length (strings.Fields pattern) <> length (strings.Fields text)
      \/ (exists i pw tw,
            nth_error (strings.Fields pattern) i = Some pw /\
            nth_error (strings.Fields text) i = Some tw /\
            length pw <> length tw)
      \/ (exists i j pw tw p t,
            nth_error (strings.Fields pattern) i = Some pw /\
            nth_error (strings.Fields text) i = Some tw /\
            nth_error pw j = Some p /\ nth_error tw j = Some t /\
            p <> star /\ p <> t)) ->
     Rev2.matchWildcard pattern text required excluded = Ok false)
  /\ Rev2.matchWildcard (str "viet ***") (str "viet nam") (str "") (str "") = Ok true
  /\ Rev2.matchWildcard (str "viet ***") (str "viet") (str "") (str "") = Ok false.
Proof.
  split; [|split; rewrite matchWildcard_formula; reflexivity].
  intros pattern text required excluded Hsp Hbad.
  apply matchWildcard_not_true. intros Hm.
  apply matchWildcard_true_positional in Hm.
  destruct (positional_Fields pattern text Hsp Hm) as [Hlen Hsame].
  destruct Hbad as [Hcount|[Hsize|Hcell]].
  - contradiction.
  - destruct Hsize as [i [pw [tw [Hp [Ht Hne]]]]].
    destruct Hsame as [Ep Et]; [intros E; rewrite E in Hp; now destruct i|].
    rewrite <- Ep in Hp. rewrite <- Et in Ht.
    destruct Hm as [_ Hm]. destruct (Hm i pw tw Hp Ht) as [Hl _]. contradiction.
  - destruct Hcell as [i [j [pw [tw [p [t [Hp [Ht [Hpj [Htj [Hstar Hne]]]]]]]]]]].
    destruct Hsame as [Ep Et]; [intros E; rewrite E in Hp; now destruct i|].
    rewrite <- Ep in Hp. rewrite <- Et in Ht.
    destruct Hm as [_ Hm]. destruct (Hm i pw tw Hp Ht) as [_ Hc].
    apply Hne. now apply (Hc j).
Qed.

Lemma spacesOnly_check (s : gostring) :
  forallb (fun c => negb (unicode.IsSpace c) || (c =? space)) s = true -> spacesOnly s.
Proof.
  intros H c Hc Hs. rewrite forallb_forall in H. specialize (H c Hc).
  rewrite Hs in H. now apply Z.eqb_eq in H.
Qed.

Lemma matchWildcard_shape_mismatch_witness :
  Rev2.matchWildcard (str "viet ***") (str "viet") (str "") (str "") = Ok false /\
  Rev2.matchWildcard (str "viet ***") (str "viet na") (str "") (str "") = Ok false /\
  Rev2.matchWildcard (str "viet ***") (str "diet nam") (str "") (str "") = Ok false.
Proof.
  split; [|split]; apply (proj1 matchWildcard_shape_mismatch);
    try (apply spacesOnly_check; reflexivity).
  - left. vm_compute. discriminate.
  - right. left. exists 1%nat, (str "***"), (str "na").
    split; [reflexivity|]. split; [reflexivity|]. vm_compute. discriminate.
  - right. right. exists 0%nat, 0%nat, (str "viet"), (str "diet"), 118, 100.
    split; [reflexivity|]. split; [reflexivity|].
    split; [reflexivity|]. split; [reflexivity|].
    split; vm_compute; discriminate.
Defined.

(** * The hyphen dialect *)

Lemma syllable_loop_from (parts : list gostring) (conds : list Rev1.SyllableCond)
    (n k : nat) :
  (k + n = length parts)%nat -> length parts = length conds ->
  forRange (combine (seq k n) (skipn k parts))
    (fun '(i, part) (_ : unit) =>
       c <- index conds i ;;
       if negb (utf8.RuneCountInString part =? Rev1.Length c)
       then Ok (Return false) else Ok (Next tt))
    tt
  = Ok (if syllablesOK (skipn k parts) (skipn k conds) then Next tt else Return false).
Proof.
  revert k. induction n as [|n IH]; intros k Hk Hlen.
  - rewrite (skipn_all2 parts) by lia. reflexivity.
  - destruct (nth_error_skipn parts k) as [part [Hp Hsp]]; [lia|].
    destruct (nth_error_skipn conds k) as [c [Hc Hsc]]; [lia|].
    rewrite Hsp, Hsc. cbn [seq combine forRange].
    unfold index. rewrite Hc. unfold syllablesOK. cbn [bind combine forallb].
    destruct (utf8.RuneCountInString part =? Rev1.Length c); cbn [negb andb bind].
    + apply (IH (Datatypes.S k)); [lia|exact Hlen].
    + reflexivity.
Qed.

Lemma forallb_negb_existsb {A : Type} (f : A -> bool) (l : list A) :
  existsb (fun x => negb (f x)) l = negb (forallb f l).
Proof.
  induction l as [|x l IH]; simpl; [reflexivity|].
  rewrite IH. now destruct (f x).
Qed.

Lemma matchSyllable_formula (word : gostring) (conds : list Rev1.SyllableCond)
    (mustChars : gostring) :
  Rev1.matchSyllablePatternWithChars word conds mustChars
  = Ok (syllableFormula word conds mustChars).
Proof.
  unfold Rev1.matchSyllablePatternWithChars, syllableFormula.
  destruct (length (strings.Fields word) =? length conds)%nat eqn:El;
    cbn [negb andb]; [|reflexivity].
  apply Nat.eqb_eq in El. unfold indices.
  pose proof (syllable_loop_from (strings.Fields word) conds
                (length (strings.Fields word)) 0) as Hloop.
  cbn [skipn] in Hloop. rewrite Hloop by (simpl; lia).
  destruct (syllablesOK (strings.Fields word) conds); cbn [bind andb]; [|reflexivity].
  rewrite (forRange_check (fun ch => negb (strings.ContainsRune word ch))).
  rewrite forallb_negb_existsb.
  now destruct (forallb (strings.ContainsRune word) mustChars).
Qed.

Lemma forallb_combine_Forall2 {A B : Type} (f : A * B -> bool) (l1 : list A) (l2 : list B) :
  (length l1 =? length l2)%nat && forallb f (combine l1 l2) = true <->
  Forall2 (fun a b => f (a, b) = true) l1 l2.
Proof.
  revert l2. induction l1 as [|x l1 IH]; intros [|y l2]; simpl.
  - split; [constructor|reflexivity].
  - split; [discriminate|]. intros H. inversion H.
  - split; [discriminate|]. intros H. inversion H.
  - specialize (IH l2). split.
    + intros H. apply andb_true_iff in H. destruct H as [H1 H2].
      apply andb_true_iff in H2. destruct H2 as [H2 H3].
      constructor; [exact H2|]. apply IH. now rewrite H1, H3.
    + intros H. inversion H as [|? ? ? ? H2 H3]; subst.
      apply IH in H3. apply andb_true_iff in H3. destruct H3 as [H3 H4].
      now rewrite H3, H2, H4.
Qed.

Lemma matchSyllable_true (word : gostring) (conds : list Rev1.SyllableCond)
    (mustChars : gostring) :
  Rev1.matchSyllablePatternWithChars word conds mustChars = Ok true <->
  Forall2 (fun part c => utf8.RuneCountInString part = Rev1.Length c)
          (strings.Fields word) conds
  /\ (forall ch, In ch mustChars -> In ch word).
Proof.
  rewrite matchSyllable_formula. unfold syllableFormula, syllablesOK.
  split.
  - intros H. injection H as H. apply andb_true_iff in H. destruct H as [H1 H2].
    apply forallb_combine_Forall2 in H1. split.
    + eapply Forall2_impl; [|exact H1]. intros part c E. now apply Z.eqb_eq.
    + intros ch Hch. rewrite forallb_forall in H2.
      now apply ContainsRune_In, H2.
  - intros [H1 H2]. f_equal. apply andb_true_iff. split.
    + apply forallb_combine_Forall2.
      eapply Forall2_impl; [|exact H1]. intros part c E. now apply Z.eqb_eq.
    + apply forallb_forall. intros ch Hch. now apply ContainsRune_In, H2.
Qed.

(** ** parsePattern *)

Lemma parsePattern_loop (parts : list gostring) (conds : list Rev1.SyllableCond)
    (mustChars : gostring) :
  fold_left
    (fun '(conds, mustChars) p =>
       match strconv.Atoi p with
       | Some n => (conds ++ [{| Rev1.Length := n |}], mustChars)
       | None => (conds, mustChars ++ p)
       end)
    parts (conds, mustChars)
  = (conds ++ numericParts parts, mustChars ++ otherParts parts).
Proof.
  revert conds mustChars.
  induction parts as [|p parts IH]; intros conds mustChars; simpl.
  - now rewrite !app_nil_r.
  - destruct (strconv.Atoi p) as [n|]; rewrite IH; simpl.
    + now rewrite <- app_assoc.
    + now rewrite <- app_assoc.
Qed.

Lemma parsePattern_parts (query : gostring) :
  Rev1.parsePattern query
  = (numericParts (strings.Split query hyphen), otherParts (strings.Split query hyphen)).
Proof. unfold Rev1.parsePattern. now rewrite parsePattern_loop. Qed.

(** C4.  The must-contain check of the hyphen dialect looks at the
    whole, un-split word: a word matches exactly when its syllables
    have the lengths asked for, one constraint per syllable, and every
    rune of the must-contain string occurs somewhere in the word.
    "3-4-aug" asks for 'a', 'u' and 'g' anywhere: all in one syllable
    ("gau xxxx"), or spread over both ("xxa ugxx"). *)
Theorem mustChars_whole_word :
  (forall (word : gostring) (conds : list Rev1.SyllableCond) (mustChars : gostring),
     Rev1.matchSyllablePatternWithChars word conds mustChars = Ok true <->
     Forall2 (fun part c => utf8.RuneCountInString part = Rev1.Length c)
             (strings.Fields word) conds
     /\ (forall ch, In ch mustChars -> In ch word))
  /\ Rev1.parsePattern (str "3-4-aug")
     = ([{| Rev1.Length := 3 |}; {| Rev1.Length := 4 |}], str "aug")
  /\ (forall X : gostring,
        Rev1.matchSyllablePatternWithChars X
          (fst (Rev1.parsePattern (str "3-4-aug")))
          (snd (Rev1.parsePattern (str "3-4-aug"))) = Ok true ->
        In 97 X /\ In 117 X /\ In 103 X)
  /\ Rev1.matchSyllablePatternWithChars (str "gau xxxx")
       [{| Rev1.Length := 3 |}; {| Rev1.Length := 4 |}] (str "aug") = Ok true
  /\ Rev1.matchSyllablePatternWithChars (str "xxa ugxx")
       [{| Rev1.Length := 3 |}; {| Rev1.Length := 4 |}] (str "aug") = Ok true
  /\ Rev1.matchSyllablePatternWithChars (str "xxa uxxx")
       [{| Rev1.Length := 3 |}; {| Rev1.Length := 4 |}] (str "aug") = Ok false.
Proof.
  split; [exact matchSyllable_true|].
  split; [reflexivity|].
  split; [|repeat split; rewrite matchSyllable_formula; reflexivity].
  intros X H. apply matchSyllable_true in H. destruct H as [_ H].
  repeat split; apply H; simpl; tauto.
Qed.

Lemma mustChars_whole_word_witness :
  In 97 (str "dua gang") /\ In 117 (str "dua gang") /\ In 103 (str "dua gang").
Proof.
  apply (proj1 (proj2 (proj2 mustChars_whole_word)) (str "dua gang")).
  rewrite matchSyllable_formula. reflexivity.
Defined.

(** C5.  [parsePattern] has a result for every query: of the parts
    between hyphens, those [Atoi] reads become the length constraints,
    in order, and the runes of all the others are put together into the
    must-contain string.  "3-4-abc" gives the lengths 3 and 4 and the
    must-contain string "abc". *)
Theorem parsePattern_never_fails :
  (forall query : gostring,
     exists conds mustChars,
       Rev1.parsePattern query = (conds, mustChars) /\
       conds = numericParts (strings.Split query hyphen) /\
       mustChars = otherParts (strings.Split query hyphen))
  /\ Rev1.parsePattern (str "3-4-abc")
     = ([{| Rev1.Length := 3 |}; {| Rev1.Length := 4 |}], str "abc").
Proof.
  split; [|reflexivity].
  intros query. eexists. eexists. split; [apply parsePattern_parts|].
  split; reflexivity.
Qed.

(** C10.  A hyphen query none of whose parts is a number gives no
    length constraint.  A word then matches only when it has no
    syllable at all, so a word with a rune that is not white space is
    never matched, whatever runes it contains. *)
Theorem no_numeric_part_matches_no_word :
  forall query : gostring,
    (forall part, In part (strings.Split query hyphen) -> strconv.Atoi part = None) ->
    fst (Rev1.parsePattern query) = [] /\
    forall word : gostring,
      (Rev1.matchSyllablePatternWithChars word
         (fst (Rev1.parsePattern query)) (snd (Rev1.parsePattern query)) = Ok true ->
       strings.Fields word = []) /\
      ((exists c, In c word /\ unicode.IsSpace c = false) ->
       Rev1.matchSyllablePatternWithChars word
         (fst (Rev1.parsePattern query)) (snd (Rev1.parsePattern query)) = Ok false).
Proof.
  intros query Hparts.
  assert (Hconds : fst (Rev1.parsePattern query) = []).
  { rewrite parsePattern_parts. cbn [fst]. unfold numericParts.
    induction (strings.Split query hyphen) as [|p parts IH]; [reflexivity|].
    simpl. rewrite (Hparts p) by now left.
    apply IH. intros part Hin. apply Hparts. now right. }
  split; [exact Hconds|]. intros word. rewrite Hconds. split.
  - intros H. apply matchSyllable_true in H. destruct H as [H _].
    now inversion H.
  - intros [c [Hin Hc]]. rewrite matchSyllable_formula. unfold syllableFormula.
    destruct (strings.Fields word) as [|f fs] eqn:E; [|reflexivity].
    apply Fields_nil in E. rewrite Forall_forall in E.
    specialize (E c Hin). congruence.
Qed.

Lemma no_numeric_part_matches_no_word_witness :
  Rev1.parsePattern (str "abc-def") = ([], str "abcdef") /\
  Rev1.matchSyllablePatternWithChars (str "abc def")
    (fst (Rev1.parsePattern (str "abc-def")))
    (snd (Rev1.parsePattern (str "abc-def"))) = Ok false.
Proof.
  split; [reflexivity|].
  assert (Hparts : forall part, In part (strings.Split (str "abc-def") hyphen) ->
                                strconv.Atoi part = None).
  { intros part Hin. vm_compute in Hin.
    destruct Hin as [<-|[<-|[]]]; reflexivity. }
  apply (proj2 (no_numeric_part_matches_no_word (str "abc-def") Hparts) (str "abc def")).
  exists 97. split; [simpl; tauto|reflexivity].
Defined.

(** An index out of range is a panic of the model: the loop over the
    cells of a template syllable, run on a shorter word syllable
    without the length check before it, panics. *)
Example cell_loop_needs_its_guard :
  forRange (indices (str "a*")) (Rev2.cellBody (str "a*") (str "a")) [] = Panic.
Proof. reflexivity. Qed.

(** C8.  Both matchers answer with a boolean on every input: no index
    is ever out of range, since each indexing comes after the check
    that the two lengths are equal; a word that does not match gives
    false. *)
Theorem matchers_never_panic :
  forall (pattern text required excluded word mustChars : gostring)
         (conds : list Rev1.SyllableCond),
    (exists b, Rev2.matchWildcard pattern text required excluded = Ok b) /\
    (exists b, Rev1.matchSyllablePatternWithChars word conds mustChars = Ok b) /\
    Rev2.matchWildcard pattern text required excluded <> Panic /\
    Rev1.matchSyllablePatternWithChars word conds mustChars <> Panic.
Proof.
  intros pattern text required excluded word mustChars conds.
  rewrite matchWildcard_formula, matchSyllable_formula.
  split; [eexists; reflexivity|].
  split; [eexists; reflexivity|].
  split; discriminate.
Qed.

(** C9.  A rune that is both required and excluded makes the wildcard
    matcher answer false on every pattern and word. *)
Theorem required_and_excluded_never_match :
  forall (pattern text required excluded : gostring) (c : rune),
    In c required -> In c excluded ->
    Rev2.matchWildcard pattern text required excluded = Ok false.
Proof.
  intros pattern text required excluded c Hreq Hexc.
  rewrite matchWildcard_formula. f_equal. unfold wildcardFormula. cbv zeta.
  destruct ((length (template pattern) =? length (syllables text))%nat
            && wordsOK (template pattern) (syllables text)); [|reflexivity].
  cbn [andb].
  destruct (forallb _ required) eqn:Ereq; [|reflexivity].
  cbn [andb]. apply negb_false_iff. apply existsb_exists.
  exists c. split; [exact Hexc|].
  rewrite forallb_forall in Ereq. now apply Ereq.
Qed.

Lemma required_and_excluded_never_match_witness :
  Rev2.matchWildcard (str "viet ***") (str "viet nam") (str "na") (str "ha") = Ok false.
Proof.
  apply (required_and_excluded_never_match _ _ _ _ 97); simpl; tauto.
Defined.

(** * The normalizer *)

Section Normalizer.

Variable U : UCD.

Lemma removeDiacritics_loop (t b : gostring) :
  fold_left
    (fun b r =>
       if ucd_Mn U r then b
       else if r =? dstroke_small then b ++ [d_small]
       else if r =? dstroke_cap then b ++ [d_cap]
       else b ++ [r])
    t b
  = b ++ map substStroke (filter (fun r => negb (ucd_Mn U r)) t).
Proof.
  revert b. induction t as [|r t IH]; intros b; simpl.
  - now rewrite app_nil_r.
  - rewrite IH. destruct (ucd_Mn U r); simpl; [reflexivity|].
    unfold substStroke at 2.
    destruct (r =? dstroke_small); [now rewrite <- app_assoc|].
    destruct (r =? dstroke_cap); now rewrite <- app_assoc.
Qed.

Lemma removeDiacritics_map (s : gostring) :
  removeDiacritics U s
  = map substStroke (filter (fun r => negb (ucd_Mn U r)) (norm.NFD U s)).
Proof. unfold removeDiacritics. now rewrite removeDiacritics_loop. Qed.

Lemma insertMark_In (c x : rune) (racc : list rune) :
  In x (norm.insertMark U c racc) <-> x = c \/ In x racc.
Proof.
  induction racc as [|p racc IH]; simpl.
  - intuition congruence.
  - destruct ((0 <? ucd_ccc U c) && (ucd_ccc U c <? ucd_ccc U p)); simpl.
    + rewrite IH. intuition congruence.
    + intuition congruence.
Qed.

Lemma canonicalOrder_In (x : rune) (s : gostring) :
  In x (norm.canonicalOrder U s) <-> In x s.
Proof.
  unfold norm.canonicalOrder. rewrite <- in_rev.
  assert (H : forall racc,
             In x (fold_left (fun racc c => norm.insertMark U c racc) s racc)
             <-> In x s \/ In x racc).
  { induction s as [|c s IH]; intros racc; simpl; [tauto|].
    rewrite IH, insertMark_In. intuition congruence. }
  rewrite H. simpl. tauto.
Qed.

Lemma canonicalOrder_starters (s : gostring) :
  Forall (fun c => ucd_ccc U c = 0) s -> norm.canonicalOrder U s = s.
Proof.
  intros Hs. unfold norm.canonicalOrder.
  assert (H : forall racc,
             fold_left (fun racc c => norm.insertMark U c racc) s racc = rev s ++ racc).
  { induction Hs as [|c s Hc _ IH]; intros racc; simpl; [reflexivity|].
    assert (Hins : norm.insertMark U c racc = c :: racc).
    { destruct racc as [|p racc]; simpl; [reflexivity|]. now rewrite Hc. }
    rewrite Hins, IH. now rewrite <- app_assoc. }
  rewrite H, app_nil_r. apply rev_involutive.
Qed.

Lemma flat_map_decomp_plain (s : gostring) :
  Forall (fun c => ucd_decomp U c = [c]) s -> flat_map (ucd_decomp U) s = s.
Proof.
  induction 1 as [|c s Hc _ IH]; simpl; [reflexivity|]. now rewrite Hc, IH.
Qed.

(** Text made of plain letters other than the two stroked ones goes
    through the normalizer unchanged. *)
Lemma removeDiacritics_plain (s : gostring) :
  (forall c, In c s -> plainLetter U c /\ substStroke c = c) ->
  removeDiacritics U s = s.
Proof.
  intros Hs. rewrite removeDiacritics_map. unfold norm.NFD.
  rewrite flat_map_decomp_plain
    by (apply Forall_forall; intros c Hc; apply (Hs c Hc)).
  rewrite canonicalOrder_starters
    by (apply Forall_forall; intros c Hc; apply (Hs c Hc)).
  rewrite filter_all.
  - rewrite <- (map_id s) at 2. apply map_ext_in. intros c Hc. apply (Hs c Hc).
  - apply Forall_forall. intros c Hc.
    destruct (Hs c Hc) as [[_ [_ HMn]] _]. now rewrite HMn.
Qed.

Lemma substStroke_plain (c : rune) :
  plainLetter U d_small -> plainLetter U d_cap -> plainLetter U c ->
  plainLetter U (substStroke c) /\ substStroke (substStroke c) = substStroke c.
Proof.
  intros Hd HD Hc.
  assert (E : substStroke c = d_small \/ substStroke c = d_cap
              \/ (substStroke c = c /\ c <> dstroke_small /\ c <> dstroke_cap)).
  { unfold substStroke.
    destruct (Z.eqb_spec c dstroke_small); [now left|].
    destruct (Z.eqb_spec c dstroke_cap); [now right; left|].
    right. right. now repeat split. }
  destruct E as [E|[E|[E [N1 N2]]]]; rewrite E.
  - split; [exact Hd|reflexivity].
  - split; [exact HD|reflexivity].
  - split; [exact Hc|exact E].
Qed.

(** C2, as amended.  On text whose combining runes are all
    non-spacing marks, normalizing twice is normalizing once. *)
Theorem removeDiacritics_idempotent_when_marks_are_Mn (s : gostring) :
  decomposedFully U ->
  plainLetter U d_small -> plainLetter U d_cap ->
  marksAreMn U s ->
  removeDiacritics U (removeDiacritics U s) = removeDiacritics U s.
Proof.
  intros Hfull Hd HD Hmarks.
  apply removeDiacritics_plain. intros c Hc.
  rewrite removeDiacritics_map in Hc. apply in_map_iff in Hc.
  destruct Hc as [c0 [<- Hc0]]. apply filter_In in Hc0.
  destruct Hc0 as [Hin HMn]. apply negb_true_iff in HMn.
  unfold norm.NFD in Hin. apply (proj1 (canonicalOrder_In _ _)) in Hin.
  apply substStroke_plain; try assumption.
  split; [|split; [now apply Hmarks|exact HMn]].
  apply in_flat_map in Hin. destruct Hin as [r [_ Hr]].
  now apply (Hfull r).
Qed.

End Normalizer.

(** ** The instance *)

Lemma assoc_In {B : Type} (r : rune) (rows : list (rune * B)) (v : B) :
  ucd.assoc r rows = Some v -> In (r, v) rows.
Proof.
  induction rows as [|[k w] rows IH]; simpl; [discriminate|].
  destruct (Z.eqb_spec r k) as [->|].
  - intros H. injection H as ->. now left.
  - intros H. right. now apply IH.
Qed.

Lemma latin_decomposedFully : decomposedFully ucd.latin.
Proof.
  assert (Hrows : forallb
                    (fun row : rune * list rune =>
                       forallb (fun c => match ucd.assoc c ucd.decompositions with
                                         | None => true
                                         | Some _ => false
                                         end) (snd row))
                    ucd.decompositions = true) by (vm_compute; reflexivity).
  intros r c Hc. cbn [ucd.latin ucd_decomp] in *. unfold ucd.decomp in *.
  destruct (ucd.assoc r ucd.decompositions) as [d|] eqn:E.
  - apply assoc_In in E. rewrite forallb_forall in Hrows.
    specialize (Hrows _ E). cbn [snd] in Hrows. rewrite forallb_forall in Hrows.
    specialize (Hrows c Hc).
    now destruct (ucd.assoc c ucd.decompositions).
  - destruct Hc as [<-|[]]. now rewrite E.
Qed.

Lemma latin_plain_d : plainLetter ucd.latin d_small /\ plainLetter ucd.latin d_cap.
Proof. repeat split. Qed.

(** C2, the claim as stated.  The musical augmentation dot and the
    musical stem (classes 226 and 216, both Mc) are held apart by a
    combining grapheme joiner, which is Mn: the normalizer drops the
    joiner, and normalizing again puts the stem before the dot. *)
Lemma removeDiacritics_not_idempotent :
  removeDiacritics ucd.latin (removeDiacritics ucd.latin dotJoinerStem)
  <> removeDiacritics ucd.latin dotJoinerStem.
Proof. vm_compute. discriminate. Qed.

Lemma removeDiacritics_idempotent_witness :
  marksAreMn ucd.latin DaNang /\
  removeDiacritics ucd.latin (removeDiacritics ucd.latin DaNang)
  = removeDiacritics ucd.latin DaNang.
Proof.
  assert (H : marksAreMn ucd.latin DaNang).
  { intros c Hc. vm_compute in Hc.
    repeat (destruct Hc as [<-|Hc]; [vm_compute; congruence|]).
    destruct Hc. }
  split; [exact H|].
  exact (removeDiacritics_idempotent_when_marks_are_Mn ucd.latin DaNang
           latin_decomposedFully (proj1 latin_plain_d) (proj2 latin_plain_d) H).
Defined.

(** C7.  "Da Nang" written with its diacritics normalizes to the ASCII
    "Da Nang", from the precomposed spelling and from the decomposed
    one.  In general the result is the canonical decomposition without
    its Mn runes and with the two stroked letters replaced: U+0110 by
    'D', U+0111 by 'd', any other rune by itself; text of plain letters,
    whatever their case, comes out as it went in. *)
Theorem removeDiacritics_Da_Nang :
  removeDiacritics ucd.latin DaNang = str "Da Nang"
  /\ removeDiacritics ucd.latin DaNangDecomposed = str "Da Nang"
  /\ (forall (U : UCD) (s : gostring),
        removeDiacritics U s
        = map substStroke (filter (fun r => negb (ucd_Mn U r)) (norm.NFD U s)))
  /\ substStroke dstroke_cap = d_cap
  /\ substStroke dstroke_small = d_small
  /\ (forall r, r <> dstroke_small -> r <> dstroke_cap -> substStroke r = r)
  /\ (forall (U : UCD) (s : gostring),
        (forall c, In c s -> plainLetter U c /\ c <> dstroke_small /\ c <> dstroke_cap) ->
        removeDiacritics U s = s).
Proof.
  assert (Hsub : forall r, r <> dstroke_small -> r <> dstroke_cap -> substStroke r = r).
  { intros r N1 N2. unfold substStroke.
    destruct (Z.eqb_spec r dstroke_small); [contradiction|].
    destruct (Z.eqb_spec r dstroke_cap); [contradiction|reflexivity]. }
  split; [vm_compute; reflexivity|].
  split; [vm_compute; reflexivity|].
  split; [exact removeDiacritics_map|].
  split; [reflexivity|]. split; [reflexivity|]. split; [exact Hsub|].
  intros U s Hs. apply removeDiacritics_plain. intros c Hc.
  destruct (Hs c Hc) as [Hp [N1 N2]]. split; [exact Hp|now apply Hsub].
Qed.

Lemma removeDiacritics_Da_Nang_witness :
  removeDiacritics ucd.latin (str "Da Nang") = str "Da Nang".
Proof.
  apply (proj2 (proj2 (proj2 (proj2 (proj2 (proj2 removeDiacritics_Da_Nang)))))).
  intros c Hc. vm_compute in Hc.
  repeat (destruct Hc as [<-|Hc];
          [split; [repeat split|split; vm_compute; discriminate]|]).
  destruct Hc.
Defined.

(** * The lookup drivers *)

Lemma wildcard1_loop_from (p t : gostring) (n k : nat) :
  (k + n = length p)%nat -> length p = length t ->
  forRange (seq k n)
    (fun i (_ : unit) =>
       c <- index p i ;;
       if c =? star then Ok (Next tt)
       else
         c' <- index p i ;;
         d <- index t i ;;
         if negb (c' =? d) then Ok (Return false) else Ok (Next tt))
    tt
  = Ok (if cellsOK (skipn k p) (skipn k t) then Next tt else Return false).
Proof.
  revert k. induction n as [|n IH]; intros k Hk Hlen.
  - rewrite (skipn_all2 p) by lia. reflexivity.
  - destruct (nth_error_skipn p k) as [c [Hc Hsp]]; [lia|].
    destruct (nth_error_skipn t k) as [d [Hd Hst]]; [lia|].
    rewrite Hsp, Hst. cbn [seq forRange].
    unfold index at 1 2 3. rewrite Hc, Hd.
    unfold cellsOK. cbn [bind combine forallb].
    destruct (c =? star); cbn [orb andb bind].
    + apply (IH (Datatypes.S k)); [lia|exact Hlen].
    + destruct (c =? d); cbn [negb andb bind].
      * apply (IH (Datatypes.S k)); [lia|exact Hlen].
      * reflexivity.
Qed.

Lemma matchWildcard1_formula (pattern text : gostring) :
  Rev1.matchWildcard pattern text
  = Ok ((length pattern =? length text)%nat && cellsOK pattern text).
Proof.
  unfold Rev1.matchWildcard.
  destruct (length pattern =? length text)%nat eqn:El; cbn [negb andb]; [|reflexivity].
  apply Nat.eqb_eq in El. unfold indices.
  pose proof (wildcard1_loop_from pattern text (length pattern) 0) as Hloop.
  cbn [skipn] in Hloop. rewrite Hloop by (simpl; lia).
  now destruct (cellsOK pattern text).
Qed.

Lemma Ok_holds (r : result bool) (b : bool) : r = Ok b -> r = Ok (holds r).
Proof. intros ->. now destruct b. Qed.

(** * Further properties: the wildcard matcher of the first revision *)

(** X1.  The two-argument [matchWildcard] never panics, and it accepts
    exactly the texts of the pattern's length that agree with the
    pattern at every cell that is not a wildcard. *)
Theorem matchWildcard1_cells :
  forall pattern text : gostring,
    (exists b, Rev1.matchWildcard pattern text = Ok b) /\
    (Rev1.matchWildcard pattern text = Ok true <->
     length pattern = length text /\
     forall i p t, nth_error pattern i = Some p -> nth_error text i = Some t ->
                   p = star \/ p = t).
Proof.
  intros pattern text. rewrite matchWildcard1_formula.
  split; [eexists; reflexivity|]. split.
  - intros H. injection H as H. apply andb_true_iff in H. destruct H as [Hl Hc].
    apply Nat.eqb_eq in Hl. split; [exact Hl|].
    intros i p t Hp Ht. destruct (Z.eq_dec p star) as [|Hne]; [now left|].
    right. now apply (proj1 (cellsOK_spec pattern text) Hc i).
  - intros [Hl Hc]. f_equal. apply andb_true_iff. split; [now apply Nat.eqb_eq|].
    apply cellsOK_spec. intros i p t Hp Ht Hne.
    destruct (Hc i p t Hp Ht); [contradiction|assumption].
Qed.

Lemma cellsOK_literal (pattern text : gostring) :
  ~ In star pattern ->
  ((length pattern =? length text)%nat && cellsOK pattern text = true <-> text = pattern).
Proof.
  revert text. induction pattern as [|p pattern IH]; intros [|t text] Hstar; simpl.
  - tauto.
  - split; discriminate.
  - split; discriminate.
  - assert (Hp : p <> star) by (intros E; apply Hstar; now left).
    assert (Hrest : ~ In star pattern) by (intros E; apply Hstar; now right).
    specialize (IH text Hrest). unfold cellsOK in *. simpl.
    destruct (Z.eqb_spec p star) as [|_]; [contradiction|]. simpl.
    destruct (Z.eqb_spec p t) as [->|Hne]; simpl.
    + rewrite IH. split; [now intros ->|now intros [= ->]].
    + rewrite andb_false_r. split; [discriminate|]. intros [= E _]. congruence.
Qed.

(** X2.  A pattern of the first revision without a wildcard matches one
    text only, the pattern itself. *)
Theorem matchWildcard1_literal_pattern :
  forall pattern text : gostring,
    ~ In star pattern ->
    (Rev1.matchWildcard pattern text = Ok true <-> text = pattern).
Proof.
  intros pattern text Hstar. rewrite matchWildcard1_formula.
  rewrite <- (cellsOK_literal pattern text Hstar).
  split; [now intros [= ->]|now intros ->].
Qed.

Lemma matchWildcard1_literal_pattern_witness :
  Rev1.matchWildcard (str "viet nam") (str "viet nam") = Ok true /\
  Rev1.matchWildcard (str "viet nam") (str "viet nan") <> Ok true.
Proof.
  assert (H : ~ In star (str "viet nam")).
  { intros H. vm_compute in H.
    repeat (destruct H as [H|H]; [discriminate H|]). exact H. }
  split.
  - now apply (matchWildcard1_literal_pattern _ _ H).
  - intros E. apply (matchWildcard1_literal_pattern _ _ H) in E. discriminate E.
Defined.

(** * Further properties: Split, Join, Fields and normalizeSpaces *)

Lemma splitFrom_cons (sep : rune) (cur s : gostring) :
  exists f fs, strings.splitFrom sep cur s = f :: fs.
Proof.
  revert cur. induction s as [|c s IH]; intros cur; simpl.
  - now exists cur, [].
  - destruct (c =? sep); [now exists cur, (strings.splitFrom sep [] s)|apply IH].
Qed.

Lemma Join_cons (f : gostring) (fs : list gostring) (sep : rune) :
  fs <> [] -> strings.Join (f :: fs) sep = f ++ sep :: strings.Join fs sep.
Proof. destruct fs; [contradiction|reflexivity]. Qed.

Lemma Join_splitFrom (sep : rune) (cur s : gostring) :
  strings.Join (strings.splitFrom sep cur s) sep = cur ++ s.
Proof.
  revert cur. induction s as [|c s IH]; intros cur; simpl.
  - now rewrite app_nil_r.
  - destruct (Z.eqb_spec c sep) as [->|Hne].
    + destruct (splitFrom_cons sep [] s) as [f [fs E]].
      rewrite Join_cons by (rewrite E; discriminate).
      now rewrite IH.
    + rewrite IH. now rewrite <- app_assoc.
Qed.

(** Joining what [Split] cut gives the string back. *)
Lemma Join_Split (s : gostring) (sep : rune) :
  strings.Join (strings.Split s sep) sep = s.
Proof. apply (Join_splitFrom sep [] s). Qed.

Lemma splitFrom_sep (sep : rune) (cur a b : gostring) :
  strings.splitFrom sep cur (a ++ sep :: b)
  = strings.splitFrom sep cur a ++ strings.splitFrom sep [] b.
Proof.
  revert cur. induction a as [|c a IH]; intros cur; simpl.
  - now rewrite Z.eqb_refl.
  - destruct (c =? sep); [now rewrite IH|apply IH].
Qed.

Lemma splitFrom_no_sep (sep : rune) (cur s f : gostring) :
  ~ In sep cur -> In f (strings.splitFrom sep cur s) -> ~ In sep f.
Proof.
  revert cur. induction s as [|c s IH]; intros cur Hcur; simpl.
  - intros [<-|[]]. exact Hcur.
  - destruct (Z.eqb_spec c sep) as [->|Hne].
    + intros [<-|H]; [exact Hcur|]. apply (IH []); [intros []|exact H].
    + apply IH. intros H. apply in_app_or in H.
      destruct H as [H|[H|[]]]; [now apply Hcur|congruence].
Qed.

Lemma splitFrom_runes (sep : rune) (cur s f : gostring) (c : rune) :
  In f (strings.splitFrom sep cur s) -> In c f -> In c cur \/ In c s.
Proof.
  revert cur. induction s as [|x s IH]; intros cur; simpl.
  - intros [<-|[]] Hc. now left.
  - destruct (x =? sep).
    + intros [<-|H] Hc; [now left|].
      destruct (IH [] H Hc) as [[]|H']. right. now right.
    + intros H Hc. destruct (IH _ H Hc) as [H'|H'].
      * apply in_app_or in H'. destruct H' as [H'|[<-|[]]]; [now left|].
        right. now left.
      * right. now right.
Qed.

Lemma fieldsFrom_runes (cur s f : gostring) (c : rune) :
  In f (strings.fieldsFrom cur s) -> In c f -> In c cur \/ In c s.
Proof.
  revert cur. induction s as [|x s IH]; intros cur; simpl.
  - destruct cur; [intros []|]. intros [<-|[]] Hc. now left.
  - destruct (unicode.IsSpace x).
    + destruct cur as [|y cur].
      * intros H Hc. destruct (IH [] H Hc) as [[]|H']. right. now right.
      * intros [<-|H] Hc; [now left|].
        destruct (IH [] H Hc) as [[]|H']. right. now right.
    + intros H Hc. destruct (IH _ H Hc) as [H'|H'].
      * apply in_app_or in H'. destruct H' as [H'|[<-|[]]]; [now left|].
        right. now left.
      * right. now right.
Qed.

Lemma fieldsFrom_app (cur f rest : gostring) :
  Forall (fun c => unicode.IsSpace c = false) f ->
  strings.fieldsFrom cur (f ++ rest) = strings.fieldsFrom (cur ++ f) rest.
Proof.
  intros Hf. revert cur. induction Hf as [|c f Hc _ IH]; intros cur; simpl.
  - now rewrite app_nil_r.
  - rewrite Hc, IH. now rewrite <- app_assoc.
Qed.

Lemma fieldsFrom_space (cur a b : gostring) :
  strings.fieldsFrom cur (a ++ space :: b)
  = strings.fieldsFrom cur a ++ strings.Fields b.
Proof.
  revert cur. induction a as [|c a IH]; intros cur; simpl.
  - now destruct cur.
  - destruct (unicode.IsSpace c).
    + destruct cur; now rewrite IH.
    + apply IH.
Qed.

Lemma Fields_Join (fs : list gostring) :
  Forall (fun f => f <> [] /\ Forall (fun c => unicode.IsSpace c = false) f) fs ->
  strings.Fields (strings.Join fs space) = fs.
Proof.
  induction 1 as [|f fs [Hne Hf] Hfs IH]; [reflexivity|].
  destruct fs as [|f' fs].
  - simpl. unfold strings.Fields. rewrite <- (app_nil_r f) at 1.
    rewrite fieldsFrom_app by exact Hf. simpl. now destruct f.
  - rewrite Join_cons by discriminate. unfold strings.Fields.
    rewrite fieldsFrom_space. fold (strings.Fields (strings.Join (f' :: fs) space)).
    rewrite IH. rewrite <- (app_nil_r f) at 1.
    rewrite fieldsFrom_app by exact Hf. simpl. now destruct f.
Qed.

(** X3.  [normalizeSpaces] keeps the fields of a string, and a second
    pass changes nothing. *)
Theorem normalizeSpaces_idempotent :
  forall s : gostring,
    strings.Fields (Rev2.normalizeSpaces s) = strings.Fields s /\
    Rev2.normalizeSpaces (Rev2.normalizeSpaces s) = Rev2.normalizeSpaces s.
Proof.
  intros s.
  assert (H : strings.Fields (Rev2.normalizeSpaces s) = strings.Fields s)
    by (apply Fields_Join, Fields_ok).
  split; [exact H|].
  unfold Rev2.normalizeSpaces at 1. now rewrite H.
Qed.

(** X4.  [normalizeSpaces] gives the empty string exactly on a string of
    white space only.  On any other string, cutting its result at the
    spaces gives exactly the fields of the input, each with a rune at
    least and without white space: the result has no space at either
    end, no two spaces in a row, and no other white space. *)
Theorem normalizeSpaces_shape :
  forall s : gostring,
    (Rev2.normalizeSpaces s = [] <-> blank s) /\
    (~ blank s ->
     strings.Split (Rev2.normalizeSpaces s) space = strings.Fields s /\
     Forall (fun f => f <> [] /\ Forall (fun c => unicode.IsSpace c = false) f)
            (strings.Split (Rev2.normalizeSpaces s) space)).
Proof.
  intros s. split.
  - unfold blank. rewrite <- Fields_nil. unfold Rev2.normalizeSpaces.
    pose proof (Fields_ok s) as Hok.
    destruct (strings.Fields s) as [|f fs]; [tauto|].
    split; [|discriminate]. intros H. exfalso.
    inversion Hok as [|? ? [Hne _] _]; subst.
    destruct fs; simpl in H; destruct f; try discriminate; contradiction.
  - intros Hs.
    assert (E : strings.Split (Rev2.normalizeSpaces s) space = strings.Fields s).
    { fold (template s). rewrite template_Fields.
      destruct (strings.Fields s) as [|f fs] eqn:E; [|reflexivity].
      exfalso. apply Hs. now apply Fields_nil. }
    split; [exact E|]. rewrite E. apply Fields_ok.
Qed.

Lemma normalizeSpaces_shape_witness :
  strings.Split (Rev2.normalizeSpaces ([9] ++ str " viet " ++ [9; 0xA0] ++ str "nam  "))
                space
  = [str "viet"; str "nam"].
Proof.
  apply (proj2 (normalizeSpaces_shape ([9] ++ str " viet " ++ [9; 0xA0] ++ str "nam  "))).
  intros H. unfold blank in H. rewrite Forall_forall in H.
  specialize (H 118). discriminate H. vm_compute. tauto.
Defined.

(** * Further properties: the wildcard matcher of the second revision *)

Lemma cellsOK_app (a b c d : gostring) :
  length a = length c ->
  cellsOK (a ++ b) (c ++ d) = cellsOK a c && cellsOK b d.
Proof.
  revert c. induction a as [|x a IH]; intros [|y c] Hl; simpl in Hl; try discriminate.
  - reflexivity.
  - unfold cellsOK in *. simpl. rewrite IH by lia. now rewrite andb_assoc.
Qed.

Lemma wordsOK_Join (ps ts : list gostring) :
  length ps = length ts -> wordsOK ps ts = true ->
  length (strings.Join ps space) = length (strings.Join ts space) /\
  cellsOK (strings.Join ps space) (strings.Join ts space) = true.
Proof.
  revert ts. induction ps as [|pw ps IH]; intros [|tw ts] Hl Hok; simpl in Hl; try discriminate.
  - now split.
  - unfold wordsOK in Hok. simpl in Hok.
    apply andb_true_iff in Hok. destruct Hok as [Hw Hrest].
    apply andb_true_iff in Hw. destruct Hw as [Hlw Hcw]. apply Nat.eqb_eq in Hlw.
    destruct ps as [|pw' ps]; destruct ts as [|tw' ts]; simpl in Hl; try discriminate.
    + now split.
    + destruct (IH (tw' :: ts)) as [IHl IHc]; [simpl; lia|exact Hrest|].
      rewrite (Join_cons pw) by discriminate.
      rewrite (Join_cons tw) by discriminate. split.
      * rewrite !length_app. cbn [length]. now rewrite Hlw, IHl.
      * rewrite cellsOK_app by exact Hlw. rewrite Hcw.
        change (cellsOK (space :: strings.Join (pw' :: ps) space)
                        (space :: strings.Join (tw' :: ts) space))
          with (((space =? star) || (space =? space))
                && cellsOK (strings.Join (pw' :: ps) space)
                           (strings.Join (tw' :: ts) space)).
        now rewrite IHc.
Qed.

(** X5.  What the wildcard matcher of the second revision accepts, under
    any required and excluded letters, the matcher of the first revision
    accepts too, once the white space of the pattern is collapsed. *)
Theorem matchWildcard_refines_first_revision :
  forall pattern text required excluded : gostring,
    Rev2.matchWildcard pattern text required excluded = Ok true ->
    Rev1.matchWildcard (Rev2.normalizeSpaces pattern) text = Ok true.
Proof.
  intros pattern text required excluded H.
  apply matchWildcard_true_positional in H. apply positional_spec in H.
  apply andb_true_iff in H. destruct H as [Hl Hok]. apply Nat.eqb_eq in Hl.
  destruct (wordsOK_Join _ _ Hl Hok) as [Hlen Hcells].
  unfold template, syllables in Hlen, Hcells. rewrite !Join_Split in Hlen, Hcells.
  rewrite matchWildcard1_formula. f_equal.
  apply andb_true_iff. split; [now apply Nat.eqb_eq|exact Hcells].
Qed.

Lemma matchWildcard_refines_first_revision_witness :
  Rev1.matchWildcard (str "viet ***") (str "viet nam") = Ok true.
Proof.
  apply (matchWildcard_refines_first_revision
           (str "  viet   *** ") (str "viet nam") (str "a") (str "oh")).
  rewrite matchWildcard_formula. reflexivity.
Defined.

(** The converse fails: in the first revision a wildcard covers a space. *)
Example first_revision_wildcard_covers_a_space :
  Rev1.matchWildcard (str "viet*nam") (str "viet nam") = Ok true /\
  Rev2.matchWildcard (str "viet*nam") (str "viet nam") (str "") (str "") = Ok false.
Proof. split; [reflexivity|]. rewrite matchWildcard_formula. reflexivity. Qed.

Lemma forallb_same_elements {A : Type} (f : A -> bool) (l l' : list A) :
  (forall x, In x l <-> In x l') -> forallb f l = forallb f l'.
Proof.
  intros H. apply eq_true_iff_eq. rewrite !forallb_forall.
  split; intros Hf x Hx; apply Hf, H, Hx.
Qed.

Lemma existsb_same_elements {A : Type} (f : A -> bool) (l l' : list A) :
  (forall x, In x l <-> In x l') -> existsb f l = existsb f l'.
Proof.
  intros H. apply eq_true_iff_eq. rewrite !existsb_exists.
  split; intros [x [Hx Hf]]; exists x; (split; [apply H, Hx|exact Hf]).
Qed.

(** X6.  The answer of the wildcard matcher depends on the pattern only
    through its fields, whatever white space stands around and between
    them, and on the required and excluded strings only through the
    letters that occur in them, whatever their order and number. *)
Theorem matchWildcard_reads_fields_and_letter_sets :
  forall pattern pattern' text required required' excluded excluded' : gostring,
    strings.Fields pattern = strings.Fields pattern' ->
    (forall c, In c required <-> In c required') ->
    (forall c, In c excluded <-> In c excluded') ->
    Rev2.matchWildcard pattern text required excluded
    = Rev2.matchWildcard pattern' text required' excluded'.
Proof.
  intros pattern pattern' text required required' excluded excluded' Hf Hr He.
  rewrite !matchWildcard_formula. f_equal. unfold wildcardFormula, template.
  unfold Rev2.normalizeSpaces. rewrite Hf. cbv zeta.
  now rewrite (forallb_same_elements _ _ _ Hr), (existsb_same_elements _ _ _ He).
Qed.

Lemma matchWildcard_reads_fields_and_letter_sets_witness :
  Rev2.matchWildcard (str " viet   ***") (str "viet nam") (str "an") (str "hoh")
  = Rev2.matchWildcard (str "viet ***") (str "viet nam") (str "naa") (str "oh").
Proof.
  apply matchWildcard_reads_fields_and_letter_sets.
  - reflexivity.
  - intros c. simpl. tauto.
  - intros c. simpl. tauto.
Defined.

Lemma template_runes (pattern f : gostring) (c : rune) :
  In f (template pattern) -> In c f -> In c pattern.
Proof.
  unfold template, strings.Split. intros Hf Hc.
  destruct (splitFrom_runes _ _ _ _ _ Hf Hc) as [[]|H].
  unfold Rev2.normalizeSpaces in H. apply Join_In in H.
  destruct H as [->|[g [Hg Hcg]]].
  - exfalso.
    apply (splitFrom_no_sep space [] (strings.Join (strings.Fields pattern) space) f);
      [intros []|exact Hf|exact Hc].
  - unfold strings.Fields in Hg.
    destruct (fieldsFrom_runes _ _ _ _ Hg Hcg) as [[]|H]. exact H.
Qed.

(** X7.  A pattern without a wildcard captures nothing: with a required
    letter it matches no word. *)
Theorem literal_pattern_with_required_never_matches :
  forall pattern text required excluded : gostring,
    ~ In star pattern -> required <> [] ->
    Rev2.matchWildcard pattern text required excluded = Ok false.
Proof.
  intros pattern text required excluded Hstar Hreq.
  rewrite matchWildcard_formula. f_equal. unfold wildcardFormula. cbv zeta.
  destruct required as [|c required]; [contradiction|].
  assert (Hc : strings.ContainsRune
                 (capturedAll (template pattern) (syllables text)) c = false).
  { apply not_true_is_false. intros H.
    apply ContainsRune_In, capturedAll_spec in H.
    destruct H as [i [j [pw [tw [Hpw [_ [Hj _]]]]]]].
    apply Hstar. apply (template_runes pattern pw star).
    - now apply nth_error_In in Hpw.
    - now apply nth_error_In in Hj. }
  simpl. rewrite Hc. now rewrite andb_false_r.
Qed.

Lemma literal_pattern_with_required_never_matches_witness :
  Rev2.matchWildcard (str "viet nam") (str "viet nam") (str "a") (str "") = Ok false.
Proof.
  apply literal_pattern_with_required_never_matches; [|discriminate].
  intros H. vm_compute in H.
  repeat (destruct H as [H|H]; [discriminate H|]). exact H.
Defined.

(** X8.  Letter constraints add up: a word matches under the required
    and excluded letters of two queries put together exactly when it
    matches under those of each. *)
Theorem matchWildcard_constraints_add_up :
  forall pattern text required1 required2 excluded1 excluded2 : gostring,
    Rev2.matchWildcard pattern text (required1 ++ required2) (excluded1 ++ excluded2)
    = Ok true <->
    Rev2.matchWildcard pattern text required1 excluded1 = Ok true /\
    Rev2.matchWildcard pattern text required2 excluded2 = Ok true.
Proof.
  intros pattern text r1 r2 e1 e2. rewrite !matchWildcard_formula.
  unfold wildcardFormula. cbv zeta. rewrite forallb_app, existsb_app.
  destruct ((length (template pattern) =? length (syllables text))%nat
            && wordsOK (template pattern) (syllables text)); cbn [andb].
  - destruct (forallb _ r1), (forallb _ r2), (existsb _ e1), (existsb _ e2);
      cbn; split; try (intros [H1 H2]); try discriminate; try tauto; auto.
  - split; [discriminate|]. now intros [H _].
Qed.

(** * Further properties: the query of [ui] *)

Ltac classify_step :=
  cbn [filter flat_map negb andb Rev2.queryPattern Rev2.excludedChars
       Rev2.requiredChars app tl].

Lemma classify_fold (parts : list gostring) (q0 : Rev2.Query) :
  Rev2.excludedChars (fold_left Rev2.classify parts q0)
  = Rev2.excludedChars q0 ++ flat_map (@tl rune) (filter isExcluded parts)
  /\ Rev2.requiredChars (fold_left Rev2.classify parts q0)
     = Rev2.requiredChars q0 ++ flat_map (@tl rune) (filter isRequired parts)
  /\ strings.Fields (Rev2.queryPattern (fold_left Rev2.classify parts q0))
     = strings.Fields (Rev2.queryPattern q0)
       ++ flat_map strings.Fields (filter isPlain parts).
Proof.
  revert q0. induction parts as [|part parts IH]; intros q0.
  - cbn [fold_left filter flat_map]. now rewrite !app_nil_r.
  - cbn [fold_left]. destruct (IH (Rev2.classify q0 part)) as [IHe [IHr IHp]].
    rewrite IHe, IHr, IHp. clear IH IHe IHr IHp.
    assert (Hother : forall p,
               strings.Fields
                 ((match Rev2.queryPattern q0 with
                   | [] => []
                   | _ => Rev2.queryPattern q0 ++ [space]
                   end) ++ p)
               = strings.Fields (Rev2.queryPattern q0) ++ strings.Fields p).
    { intros p. destruct (Rev2.queryPattern q0) as [|x qp]; [reflexivity|].
      rewrite <- app_assoc.
      exact (fieldsFrom_space [] (x :: qp) p). }
    unfold Rev2.classify, isPlain, isExcluded, isRequired.
    destruct part as [|c rest].
    + classify_step. rewrite Hother. now rewrite <- !app_assoc.
    + destruct (c =? hyphen) eqn:Eh; [|destruct (c =? plus) eqn:Ep];
        classify_step; rewrite ?Eh, ?Ep; classify_step;
        rewrite ?Hother, <- ?app_assoc; repeat split; reflexivity.
Qed.

(** X9.  [ui] reads a query part by part, cut at single spaces: the
    excluded letters are those of the parts that begin with a hyphen,
    in order and without the hyphen; the required letters those of the
    parts that begin with a plus sign; and the syllables of the pattern
    are the fields of the remaining parts.  Where the parts with a sign
    stand among the others makes no difference. *)
Theorem parseQuery_parts :
  forall (U : UCD) (query : gostring),
    let parts := strings.Split (strings.ToLower U (removeDiacritics U query)) space in
    Rev2.excludedChars (Rev2.parseQuery U query)
    = flat_map (@tl rune) (filter isExcluded parts)
    /\ Rev2.requiredChars (Rev2.parseQuery U query)
       = flat_map (@tl rune) (filter isRequired parts)
    /\ strings.Fields (Rev2.queryPattern (Rev2.parseQuery U query))
       = flat_map strings.Fields (filter isPlain parts).
Proof.
  intros U query parts. unfold Rev2.parseQuery. fold parts.
  exact (classify_fold parts
           {| Rev2.queryPattern := []; Rev2.excludedChars := [];
              Rev2.requiredChars := [] |}).
Qed.

(** * Further properties: the hyphen dialect *)

Lemma digitsValue_nonneg (ds : gostring) (n : Z) :
  forallb strconv.isDigit ds = true -> 0 <= n ->
  0 <= fold_left (fun n c => n * 10 + (c - 48)) ds n.
Proof.
  revert n. induction ds as [|c ds IH]; intros n Hd Hn; simpl; [exact Hn|].
  simpl in Hd. apply andb_true_iff in Hd. destruct Hd as [Hc Hd].
  apply IH; [exact Hd|]. unfold strconv.isDigit in Hc.
  apply andb_true_iff in Hc. destruct Hc as [Hlo _]. apply Z.leb_le in Hlo. lia.
Qed.

Lemma Atoi_unsigned_range (s : gostring) (n : Z) :
  ~ In hyphen s -> strconv.Atoi s = Some n -> 0 <= n <= 2 ^ 63 - 1.
Proof.
  intros Hs. unfold strconv.Atoi.
  assert (Hcase : forall ds,
             match ds with
             | [] => None
             | _ :: _ =>
                 if forallb strconv.isDigit ds
                 then (let n := if false then - strconv.digitsValue ds
                                else strconv.digitsValue ds in
                       if (- 2 ^ 63 <=? n) && (n <=? 2 ^ 63 - 1) then Some n else None)
                 else None
             end = Some n -> 0 <= n <= 2 ^ 63 - 1).
  { intros ds. destruct ds as [|d ds]; [discriminate|].
    destruct (forallb strconv.isDigit (d :: ds)) eqn:Ed; [|discriminate].
    cbv zeta.
    destruct ((- 2 ^ 63 <=? strconv.digitsValue (d :: ds))
              && (strconv.digitsValue (d :: ds) <=? 2 ^ 63 - 1)) eqn:Er; [|discriminate].
    intros [= <-]. apply andb_true_iff in Er. destruct Er as [_ Hhi].
    apply Z.leb_le in Hhi. split; [|exact Hhi].
    unfold strconv.digitsValue. apply digitsValue_nonneg; [exact Ed|lia]. }
  destruct s as [|c s]; [discriminate|].
  destruct (Z.eqb_spec c hyphen) as [->|Hne]; [exfalso; apply Hs; now left|].
  destruct (c =? plus); [exact (Hcase s)|exact (Hcase (c :: s))].
Qed.

Lemma Split_no_sep (s : gostring) (sep : rune) (f : gostring) :
  In f (strings.Split s sep) -> ~ In sep f.
Proof. apply splitFrom_no_sep. intros []. Qed.

(** X10.  Every length constraint [parsePattern] yields is a number
    from 0 to the greatest [int]: no part of the query holds a hyphen,
    so [Atoi] never reads a minus sign. *)
Theorem parsePattern_lengths_in_range :
  forall query : gostring,
    Forall (fun c => 0 <= Rev1.Length c <= 2 ^ 63 - 1) (fst (Rev1.parsePattern query)).
Proof.
  intros query. rewrite parsePattern_parts. cbn [fst].
  apply Forall_forall. intros c Hc. unfold numericParts in Hc.
  apply in_flat_map in Hc. destruct Hc as [p [Hp Hc]].
  destruct (strconv.Atoi p) as [n|] eqn:E; [|destruct Hc].
  destruct Hc as [<-|[]]. cbn [Rev1.Length].
  apply (Atoi_unsigned_range p); [|exact E].
  now apply (Split_no_sep query hyphen).
Qed.

Lemma matchSyllable_not_true (word : gostring) (conds : list Rev1.SyllableCond)
    (mustChars : gostring) :
  Rev1.matchSyllablePatternWithChars word conds mustChars <> Ok true ->
  Rev1.matchSyllablePatternWithChars word conds mustChars = Ok false.
Proof.
  rewrite matchSyllable_formula.
  destruct (syllableFormula word conds mustChars); congruence.
Qed.

(** X11.  A length constraint of 0 cannot be met, since a syllable has
    at least one rune: a query with such a part, as "0-3", matches no
    word. *)
Theorem zero_length_constraint_never_matches :
  forall (word mustChars : gostring) (conds : list Rev1.SyllableCond)
         (c : Rev1.SyllableCond),
    In c conds -> Rev1.Length c <= 0 ->
    Rev1.matchSyllablePatternWithChars word conds mustChars = Ok false.
Proof.
  intros word mustChars conds c Hin Hc.
  apply matchSyllable_not_true. intros H.
  apply matchSyllable_true in H. destruct H as [H _].
  pose proof (Fields_ok word) as Hok.
  induction H as [|part c' parts conds' Hpc _ IH]; [destruct Hin|].
  inversion Hok as [|? ? [Hne _] Hok']; subst.
  destruct Hin as [->|Hin]; [|now apply IH].
  unfold utf8.RuneCountInString in Hpc. destruct part; [contradiction|].
  simpl length in Hpc. lia.
Qed.

Lemma zero_length_constraint_never_matches_witness :
  Rev1.matchSyllablePatternWithChars (str "con meo")
    (fst (Rev1.parsePattern (str "0-3"))) (snd (Rev1.parsePattern (str "0-3")))
  = Ok false.
Proof.
  apply (zero_length_constraint_never_matches _ _ _ {| Rev1.Length := 0 |}).
  - vm_compute. now left.
  - vm_compute. discriminate.
Defined.

(** X12.  [parsePattern] reads a query hyphen by hyphen: the result for
    two queries joined by a hyphen is the result for the first followed
    by the result for the second, and the empty query gives nothing.  A
    hyphen at either end, or a doubled one, changes nothing. *)
Theorem parsePattern_joins :
  forall a b : gostring,
    Rev1.parsePattern (a ++ hyphen :: b)
    = (fst (Rev1.parsePattern a) ++ fst (Rev1.parsePattern b),
       snd (Rev1.parsePattern a) ++ snd (Rev1.parsePattern b))
    /\ Rev1.parsePattern (a ++ [hyphen]) = Rev1.parsePattern a
    /\ Rev1.parsePattern (hyphen :: a) = Rev1.parsePattern a
    /\ Rev1.parsePattern (a ++ hyphen :: hyphen :: b)
       = Rev1.parsePattern (a ++ hyphen :: b).
Proof.
  assert (Hjoin : forall a b,
             Rev1.parsePattern (a ++ hyphen :: b)
             = (fst (Rev1.parsePattern a) ++ fst (Rev1.parsePattern b),
                snd (Rev1.parsePattern a) ++ snd (Rev1.parsePattern b))).
  { intros a b. rewrite !parsePattern_parts. cbn [fst snd].
    unfold strings.Split. rewrite splitFrom_sep.
    unfold numericParts, otherParts. now rewrite !flat_map_app. }
  assert (Hnil : Rev1.parsePattern [] = ([], [])) by reflexivity.
  assert (Hpair : forall a, Rev1.parsePattern a
                            = (fst (Rev1.parsePattern a), snd (Rev1.parsePattern a)))
    by (intros a; now destruct (Rev1.parsePattern a)).
  intros a b. split; [apply Hjoin|]. split; [|split].
  - rewrite Hjoin, Hnil. cbn [fst snd]. rewrite !app_nil_r. symmetry. apply Hpair.
  - change (hyphen :: a) with ([] ++ hyphen :: a).
    rewrite Hjoin, Hnil. cbn [fst snd app]. symmetry. apply Hpair.
  - rewrite (Hjoin a (hyphen :: b)), (Hjoin a b).
    change (hyphen :: b) with ([] ++ hyphen :: b).
    rewrite (Hjoin [] b), Hnil. reflexivity.
Qed.

Lemma concat_fieldsFrom (cur s : gostring) :
  concat (strings.fieldsFrom cur s) = cur ++ letters s.
Proof.
  revert cur. induction s as [|c s IH]; intros cur; unfold letters; simpl.
  - destruct cur; [reflexivity|]. simpl. now rewrite !app_nil_r.
  - fold (letters s). destruct (unicode.IsSpace c); simpl.
    + destruct cur as [|x cur]; [apply IH|]. simpl. now rewrite IH.
    + rewrite IH. now rewrite <- app_assoc.
Qed.

(** X13.  A word that matches a hyphen query has as many letters, the
    white space between its syllables not counted, as the lengths of
    the query add up to: "3-4" finds words of seven letters. *)
Theorem matched_word_has_total_length :
  forall (word mustChars : gostring) (conds : list Rev1.SyllableCond),
    Rev1.matchSyllablePatternWithChars word conds mustChars = Ok true ->
    Z.of_nat (length (letters word)) = totalLength conds.
Proof.
  intros word mustChars conds H.
  apply matchSyllable_true in H. destruct H as [H _].
  pose proof (concat_fieldsFrom [] word) as Hc. cbn [app] in Hc.
  fold (strings.Fields word) in Hc. rewrite <- Hc. clear Hc.
  induction H as [|part c parts conds' Hpc _ IH]; [reflexivity|].
  cbn [concat totalLength fold_right]. fold (totalLength conds').
  rewrite length_app, Nat2Z.inj_add, IH.
  unfold utf8.RuneCountInString in Hpc. lia.
Qed.

Lemma matched_word_has_total_length_witness :
  Z.of_nat (length (letters (str "con  meoa"))) = 7.
Proof.
  apply (matched_word_has_total_length (str "con  meoa") (str "ao")
           [{| Rev1.Length := 3 |}; {| Rev1.Length := 4 |}]).
  rewrite matchSyllable_formula. reflexivity.
Defined.

(** * Further properties: the normalizer *)

Lemma substStroke_never_stroked (c : rune) :
  substStroke c <> dstroke_small /\ substStroke c <> dstroke_cap.
Proof.
  unfold substStroke.
  destruct (Z.eqb_spec c dstroke_small); [split; discriminate|].
  destruct (Z.eqb_spec c dstroke_cap); [split; discriminate|].
  now split.
Qed.

(** X14.  Whatever the input and the character data, the result of
    [removeDiacritics] holds neither of the two stroked letters. *)
Theorem removeDiacritics_has_no_stroked_d :
  forall (U : UCD) (s : gostring),
    ~ In dstroke_small (removeDiacritics U s) /\
    ~ In dstroke_cap (removeDiacritics U s).
Proof.
  intros U s. rewrite removeDiacritics_map.
  split; intros H; apply in_map_iff in H; destruct H as [c [E _]];
    now destruct (substStroke_never_stroked c).
Qed.

(** X15.  When 'd' and 'D' are no marks themselves, as in Unicode, the
    result of [removeDiacritics] holds no non-spacing mark. *)
Theorem removeDiacritics_has_no_mark :
  forall (U : UCD) (s : gostring) (c : rune),
    ucd_Mn U d_small = false -> ucd_Mn U d_cap = false ->
    In c (removeDiacritics U s) -> ucd_Mn U c = false.
Proof.
  intros U s c Hd HD H. rewrite removeDiacritics_map in H.
  apply in_map_iff in H. destruct H as [c0 [<- H]].
  apply filter_In in H. destruct H as [_ HMn]. apply negb_true_iff in HMn.
  unfold substStroke.
  destruct (c0 =? dstroke_small); [exact Hd|].
  destruct (c0 =? dstroke_cap); [exact HD|exact HMn].
Qed.

Lemma removeDiacritics_has_no_mark_witness :
  ucd_Mn ucd.latin 97 = false.
Proof.
  apply (removeDiacritics_has_no_mark ucd.latin DaNang 97); try reflexivity.
  vm_compute. tauto.
Defined.

(** * Further properties: the line of the prompt *)

Lemma trimLeft_blank (s : gostring) : strings.trimLeft s = [] <-> blank s.
Proof.
  unfold blank. induction s as [|c s IH]; simpl.
  - split; [constructor|reflexivity].
  - destruct (unicode.IsSpace c) eqn:E.
    + rewrite IH. split; [now constructor|now inversion 1].
    + split; [discriminate|]. inversion 1; congruence.
Qed.

Lemma trimLeft_blank_app (pre s : gostring) :
  blank pre -> strings.trimLeft (pre ++ s) = strings.trimLeft s.
Proof.
  induction 1 as [|c pre Hc _ IH]; simpl; [reflexivity|]. now rewrite Hc.
Qed.

Lemma trimLeft_app (s t : gostring) :
  strings.trimLeft s <> [] -> strings.trimLeft (s ++ t) = strings.trimLeft s ++ t.
Proof.
  induction s as [|c s IH]; simpl; [contradiction|].
  destruct (unicode.IsSpace c); [exact IH|reflexivity].
Qed.

Lemma blank_rev (s : gostring) : blank s -> blank (rev s).
Proof. unfold blank. apply Forall_rev. Qed.

Lemma TrimSpace_blanks_around (pre line post : gostring) :
  blank pre -> blank post ->
  strings.TrimSpace (pre ++ line ++ post) = strings.TrimSpace line.
Proof.
  intros Hpre Hpost. unfold strings.TrimSpace.
  rewrite trimLeft_blank_app by exact Hpre.
  destruct (strings.trimLeft line) as [|c rest] eqn:E.
  - apply trimLeft_blank in E.
    rewrite (trimLeft_blank_app line post E).
    apply trimLeft_blank in Hpost. now rewrite Hpost.
  - rewrite trimLeft_app by (rewrite E; discriminate).
    rewrite E, rev_app_distr.
    now rewrite (trimLeft_blank_app _ _ (blank_rev _ Hpost)).
Qed.

(** X16.  White space before and after the line read from the prompt,
    the newline that ends it included, changes nothing of what [ui]
    and the [main] of the first revision do with it. *)
Theorem prompt_ignores_blanks_around :
  forall (U : UCD) (dict : list gostring) (pre line post : gostring),
    blank pre -> blank post ->
    Rev2.ui U dict (pre ++ line ++ post) = Rev2.ui U dict line /\
    Rev1.main U dict (pre ++ line ++ post) = Rev1.main U dict line.
Proof.
  intros U dict pre line post Hpre Hpost.
  unfold Rev2.ui, Rev1.main.
  now rewrite (TrimSpace_blanks_around pre line post Hpre Hpost).
Qed.

Lemma prompt_ignores_blanks_around_witness :
  Rev2.ui ucd.latin [VietNam] (str "  viet ***" ++ [10])
  = Rev2.ui ucd.latin [VietNam] (str "viet ***").
Proof.
  apply (proj1 (prompt_ignores_blanks_around ucd.latin [VietNam]
                  (str "  ") (str "viet ***") [10]
                  ltac:(repeat constructor) ltac:(repeat constructor))).
Defined.

(** * Further properties: loading the dictionary *)

(** X17.  [loadDictFromURL] gives a dictionary exactly when the request
    was answered with status 200 and a body that decodes; any other
    status is an error, whatever the body. *)
Theorem loadDictFromURL_ok :
  forall (J : Json) (net : response) (dict : dictionary J),
    loadDictFromURL J net = inl dict <->
    exists body, net = Response 200 body /\ Decode J body = Some dict.
Proof.
  intros J net dict. unfold loadDictFromURL. split.
  - destruct net as [|status body]; [discriminate|].
    destruct (Z.eqb_spec status 200) as [->|Hne]; cbn [negb]; [|discriminate].
    destruct (Decode J body) as [d|] eqn:E; [|discriminate].
    intros [= ->]. now exists body.
  - intros [body [-> E]]. cbn. now rewrite E.
Qed.

(** X18.  When [loadDict] fails it has asked the network, it has not
    written the cache, and the cache held nothing it could read; its
    error is that of [loadDictFromURL]. *)
Theorem loadDict_failure :
  forall (J : Json) (w w' : World) (net : response) (err : loadError)
         (trace : list event),
    loadDict J w net = (inr err, w', trace) ->
    w' = w /\ trace = [Fetched] /\ loadDictFromURL J net = inr err /\
    (forall data, cache w = Content data -> Unmarshal J data = None).
Proof.
  intros J w w' net err trace H.
  assert (Hfetch : fetchAndCache J w net = (inr err, w', trace) ->
                   w' = w /\ trace = [Fetched] /\ loadDictFromURL J net = inr err).
  { unfold fetchAndCache. destruct (loadDictFromURL J net) as [d|e]; [discriminate|].
    intros [= -> -> ->]. now repeat split. }
  unfold loadDict in H. destruct (cache w) as [| |data] eqn:Ec.
  - destruct (Hfetch H) as [H1 [H2 H3]]. repeat split; try assumption. discriminate.
  - destruct (Hfetch H) as [H1 [H2 H3]]. repeat split; try assumption. discriminate.
  - destruct (Unmarshal J data) as [d|] eqn:Eu; [discriminate|].
    destruct (Hfetch H) as [H1 [H2 H3]]. repeat split; try assumption.
    intros data' [= <-]. exact Eu.
Qed.

Lemma loadDict_failure_witness :
  loadDictFromURL plainJson (Response 404 []) = inr (ErrStatus 404).
Proof.
  apply (loadDict_failure plainJson {| cache := Missing; writable := true |}
           {| cache := Missing; writable := true |} (Response 404 []) (ErrStatus 404)
           [Fetched]).
  reflexivity.
Defined.



(** X20.  [main] drops the error of [loadDict]: when the dictionary
    could not be loaded the prompt still runs, over no word, and every
    query prints nothing. *)
Theorem failed_load_prints_nothing :
  forall (J : Json) (w w' : World) (net : response) (err : loadError)
         (trace : list event) (U : UCD) (line : gostring),
    loadDict J w net = (inr err, w', trace) ->
    (isDirective (strings.TrimSpace line) = false ->
     Rev2.ui U (loadedWords J w net) line = Ok (Printed [])) /\
    (eqs (strings.TrimSpace line) (str "!help") = false ->
     Rev1.main U (loadedWords J w net) line = Ok (Printed [])).
Proof.
  intros J w w' net err trace U line H.
  unfold loadedWords. rewrite H. cbn [fst]. split.
  - unfold isDirective. intros Hdir.
    apply orb_false_iff in Hdir. destruct Hdir as [Hdir Hclear].
    apply orb_false_iff in Hdir. destruct Hdir as [Hquit Hhelp].
    unfold Rev2.ui. now rewrite Hquit, Hhelp, Hclear.
  - intros Hhelp. unfold Rev1.main. rewrite Hhelp.
    destruct (strings.ContainsRune (strings.TrimSpace line) hyphen); [|reflexivity].
    now destruct (Rev1.parsePattern (strings.TrimSpace line)).
Qed.

Lemma failed_load_prints_nothing_witness :
  Rev2.ui ucd.latin
    (loadedWords plainJson {| cache := Unreadable; writable := false |} GetError)
    (str "viet ***")
  = Ok (Printed []).
Proof.
  apply (proj1 (failed_load_prints_nothing plainJson
                  {| cache := Unreadable; writable := false |}
                  {| cache := Unreadable; writable := false |}
                  GetError ErrGet [Fetched] ucd.latin (str "viet ***") eq_refl)).
  reflexivity.
Defined.

(** * The comparison form of the lookup drivers *)

Lemma fieldsFrom_nonEmpty (cur s : gostring) :
  cur <> [] -> strings.fieldsFrom cur s <> [].
Proof.
  revert cur. induction s as [|c s IH]; intros cur Hcur; simpl.
  - now destruct cur.
  - destruct (unicode.IsSpace c).
    + now destruct cur.
    + apply IH. now destruct cur.
Qed.

(** Collapsing, as the spec words it, is joining the fields with one
    space. *)
Lemma collapseFrom_Join (s : gostring) :
  (forall gap, strings.Join (strings.fieldsFrom [] s) space = collapseFrom false gap s)
  /\ (forall cur, cur <> [] ->
        strings.Join (strings.fieldsFrom cur s) space = cur ++ collapseFrom true false s)
  /\ (forall f, f <> [] ->
        strings.Join (f :: strings.fieldsFrom [] s) space = f ++ collapseFrom true true s).
Proof.
  induction s as [|c s [IHa [IHb IHc]]].
  - split; [reflexivity|]. split.
    + intros cur Hcur. simpl. destruct cur; [contradiction|]. now rewrite app_nil_r.
    + intros f Hf. simpl. now rewrite app_nil_r.
  - simpl. destruct (unicode.IsSpace c) eqn:Ec.
    + split; [intros gap; apply IHa|]. split.
      * intros cur Hcur. destruct cur as [|x cur]; [contradiction|]. now apply IHc.
      * intros f Hf. now apply IHc.
    + split; [|split].
      * intros gap. cbn [andb]. apply (IHb [c]). discriminate.
      * intros cur Hcur. cbn [andb]. rewrite IHb by now destruct cur.
        now rewrite <- app_assoc.
      * intros f Hf. cbn [andb app].
        pose proof (fieldsFrom_nonEmpty [c] s ltac:(discriminate)) as Hne.
        pose proof (IHb [c] ltac:(discriminate)) as Hb.
        destruct (strings.fieldsFrom [c] s); [contradiction|]. now rewrite Hb.
Qed.

Lemma collapseSpaces_Join (s : gostring) :
  collapseSpaces s = strings.Join (strings.Fields s) space.
Proof. symmetry. apply (proj1 (collapseFrom_Join s)). Qed.

Lemma fieldsFrom_gap (c : rune) (cur a b : gostring) :
  unicode.IsSpace c = true ->
  strings.fieldsFrom cur (a ++ c :: b)
  = strings.fieldsFrom cur a ++ strings.Fields b.
Proof.
  intros Hc. revert cur. induction a as [|x a IH]; intros cur; simpl.
  - rewrite Hc. now destruct cur.
  - destruct (unicode.IsSpace x).
    + destruct cur; now rewrite IH.
    + apply IH.
Qed.

Lemma Fields_solid (f : gostring) :
  Forall (fun c => unicode.IsSpace c = false) f ->
  strings.Fields f = match f with [] => [] | _ => [f] end.
Proof.
  intros Hf. unfold strings.Fields. rewrite <- (app_nil_r f) at 1.
  rewrite fieldsFrom_app by exact Hf. reflexivity.
Qed.

Lemma substStroke_space (c : rune) :
  unicode.IsSpace (substStroke c) = unicode.IsSpace c.
Proof.
  unfold substStroke.
  destruct (Z.eqb_spec c dstroke_small) as [->|]; [reflexivity|].
  destruct (Z.eqb_spec c dstroke_cap) as [->|]; reflexivity.
Qed.

Section ComparisonForm.

Variable U : UCD.
Hypothesis HU : whiteSpaceKept U.

Lemma insertMark_before_starter (c s0 : rune) (r1 r2 : list rune) :
  ucd_ccc U s0 = 0 ->
  norm.insertMark U c (r1 ++ s0 :: r2) = norm.insertMark U c r1 ++ s0 :: r2.
Proof.
  intros Hs. induction r1 as [|p r1 IH]; simpl.
  - rewrite Hs.
    destruct (Z.ltb_spec 0 (ucd_ccc U c)), (Z.ltb_spec (ucd_ccc U c) 0);
      simpl; try reflexivity; lia.
  - destruct ((0 <? ucd_ccc U c) && (ucd_ccc U c <? ucd_ccc U p)); simpl.
    + now rewrite IH.
    + reflexivity.
Qed.

Lemma canonicalOrder_starter (s0 : rune) (a b : gostring) :
  ucd_ccc U s0 = 0 ->
  norm.canonicalOrder U (a ++ s0 :: b)
  = norm.canonicalOrder U a ++ s0 :: norm.canonicalOrder U b.
Proof.
  intros Hs. unfold norm.canonicalOrder.
  assert (Hfold : forall l r1 r2,
             fold_left (fun racc c => norm.insertMark U c racc) l (r1 ++ s0 :: r2)
             = fold_left (fun racc c => norm.insertMark U c racc) l r1 ++ s0 :: r2).
  { induction l as [|c l IH]; intros r1 r2; simpl; [reflexivity|].
    now rewrite insertMark_before_starter, IH. }
  rewrite fold_left_app. cbn [fold_left].
  assert (Hins : forall R, norm.insertMark U s0 R = [] ++ s0 :: R).
  { intros R. destruct R as [|p R]; simpl; [reflexivity|]. now rewrite Hs. }
  rewrite Hins, Hfold. cbn [fold_left].
  rewrite rev_app_distr. cbn [rev]. now rewrite <- app_assoc.
Qed.

(** Stripping goes syllable by syllable: it splits at a white-space
    rune. *)
Lemma removeDiacritics_gap (c : rune) (a b : gostring) :
  unicode.IsSpace c = true ->
  exists c', unicode.IsSpace c' = true /\
             removeDiacritics U (a ++ c :: b)
             = removeDiacritics U a ++ c' :: removeDiacritics U b.
Proof.
  intros Hc. destruct HU as [H1 [H2 _]].
  destruct (H1 c Hc) as [c' [Hd Hc']]. exists c'. split; [exact Hc'|].
  destruct (H2 c' Hc') as [Hccc HMn].
  rewrite !removeDiacritics_map. unfold norm.NFD.
  rewrite flat_map_app. cbn [flat_map]. rewrite Hd. cbn [app].
  rewrite canonicalOrder_starter by exact Hccc.
  rewrite filter_app. cbn [filter]. rewrite HMn. cbn [negb].
  rewrite map_app. cbn [map]. f_equal. f_equal.
  unfold substStroke.
  destruct (Z.eqb_spec c' dstroke_small) as [->|]; [discriminate Hc'|].
  destruct (Z.eqb_spec c' dstroke_cap) as [->|]; [discriminate Hc'|reflexivity].
Qed.

Lemma removeDiacritics_solid (f : gostring) :
  Forall (fun c => unicode.IsSpace c = false) f ->
  Forall (fun c => unicode.IsSpace c = false) (removeDiacritics U f).
Proof.
  intros Hf. destruct HU as [_ [_ [H3 _]]].
  apply Forall_forall. intros c Hc. rewrite removeDiacritics_map in Hc.
  apply in_map_iff in Hc. destruct Hc as [c0 [<- Hc0]].
  rewrite substStroke_space. apply filter_In in Hc0. destruct Hc0 as [Hin _].
  unfold norm.NFD in Hin. apply (proj1 (canonicalOrder_In U _ _)) in Hin.
  apply in_flat_map in Hin. destruct Hin as [r [Hr Hc0]].
  rewrite Forall_forall in Hf. exact (H3 r c0 (Hf r Hr) Hc0).
Qed.

(** The word stripped and in lower case. *)
Let strippedLower (s : gostring) : gostring :=
  strings.ToLower U (removeDiacritics U s).

Lemma strippedLower_gap (c : rune) (a b : gostring) :
  unicode.IsSpace c = true ->
  exists c', unicode.IsSpace c' = true /\
             strippedLower (a ++ c :: b) = strippedLower a ++ c' :: strippedLower b.
Proof.
  intros Hc. destruct (removeDiacritics_gap c a b Hc) as [c' [Hc' E]].
  exists (ucd_lower U c'). split.
  - destruct HU as [_ [_ [_ [H4 _]]]]. now rewrite H4.
  - unfold strippedLower, strings.ToLower. rewrite E, map_app. reflexivity.
Qed.

Lemma strippedLower_solid (f : gostring) :
  Forall (fun c => unicode.IsSpace c = false) f ->
  Forall (fun c => unicode.IsSpace c = false) (strippedLower f).
Proof.
  intros Hf. unfold strippedLower, strings.ToLower.
  apply Forall_map. eapply Forall_impl; [|apply removeDiacritics_solid, Hf].
  intros c Hc. destruct HU as [_ [_ [_ [H4 _]]]]. now rewrite H4.
Qed.

Lemma strippedLower_space (a b : gostring) :
  strippedLower (a ++ space :: b) = strippedLower a ++ space :: strippedLower b.
Proof.
  destruct HU as [_ [H2 [_ [_ [H5 H6]]]]].
  destruct (H2 space eq_refl) as [Hccc HMn].
  unfold strippedLower, strings.ToLower.
  rewrite !removeDiacritics_map. unfold norm.NFD.
  rewrite flat_map_app. cbn [flat_map]. rewrite H5. cbn [app].
  rewrite canonicalOrder_starter by exact Hccc.
  rewrite filter_app. cbn [filter]. rewrite HMn. cbn [negb].
  rewrite !map_app. cbn [map].
  change (substStroke space) with space. now rewrite H6.
Qed.

(** The fields of the stripped, lower-cased word are the stripped,
    lower-cased fields of the word that are left with a rune. *)
Lemma Fields_strippedLower (s cur : gostring) :
  Forall (fun c => unicode.IsSpace c = false) cur ->
  strings.Fields (strippedLower (cur ++ s))
  = filter nonEmpty (map strippedLower (strings.fieldsFrom cur s)).
Proof.
  revert cur. induction s as [|c s IH]; intros cur Hcur.
  - rewrite app_nil_r. rewrite (Fields_solid _ (strippedLower_solid cur Hcur)).
    simpl. destruct cur as [|x cur]; [reflexivity|].
    cbn [map filter]. now destruct (strippedLower (x :: cur)).
  - simpl. destruct (unicode.IsSpace c) eqn:Ec.
    + destruct (strippedLower_gap c cur s Ec) as [c' [Hc' E]]. rewrite E.
      unfold strings.Fields at 1. rewrite (fieldsFrom_gap c') by exact Hc'.
      fold (strings.Fields (strippedLower cur)).
      rewrite (Fields_solid _ (strippedLower_solid cur Hcur)).
      specialize (IH [] (Forall_nil _)). cbn [app] in IH. rewrite IH.
      destruct cur as [|x cur]; [reflexivity|].
      cbn [map filter]. now destruct (strippedLower (x :: cur)).
    + replace (cur ++ c :: s) with ((cur ++ [c]) ++ s) by now rewrite <- app_assoc.
      apply IH. apply Forall_app. split; [exact Hcur|]. now constructor.
Qed.

Lemma strippedLower_Join (fs : list gostring) :
  strippedLower (strings.Join fs space)
  = strings.Join (map strippedLower fs) space.
Proof.
  induction fs as [|f fs IH]; [reflexivity|].
  destruct fs as [|f' fs]; [reflexivity|].
  rewrite Join_cons by discriminate. rewrite strippedLower_space, IH.
  cbn [map]. now rewrite (Join_cons (strippedLower f)) by discriminate.
Qed.

(** What [ui] hands to the matcher is the comparison form of the word,
    for a word none of whose syllables is made of marks only. *)
Lemma ui_compares_comparisonForm (word : gostring) :
  keepsSyllables U word ->
  strings.ToLower U (removeDiacritics U (Rev2.normalizeSpaces word))
  = comparisonForm U word.
Proof.
  intros Hw. unfold comparisonForm. rewrite collapseSpaces_Join.
  fold (strippedLower word).
  fold (strippedLower (Rev2.normalizeSpaces word)).
  pose proof (Fields_strippedLower word [] (Forall_nil _)) as HF.
  cbn [app] in HF. fold (strings.Fields word) in HF. rewrite HF.
  unfold Rev2.normalizeSpaces. rewrite strippedLower_Join.
  f_equal. symmetry. apply filter_all.
  unfold keepsSyllables in Hw. apply Forall_map.
  eapply Forall_impl; [|exact Hw].
  intros f Hf. unfold strippedLower, strings.ToLower. cbv beta in Hf.
  destruct (removeDiacritics U f); [now contradiction Hf|reflexivity].
Qed.

End ComparisonForm.

(** ** The instance *)

Lemma IsSpace_whiteSpaces (c : rune) :
  unicode.IsSpace c = true -> In c whiteSpaces.
Proof.
  unfold unicode.IsSpace. intros H.
  repeat match goal with
         | H : (_ || _) = true |- _ => apply orb_true_iff in H; destruct H as [H|H]
         end;
    repeat match goal with
           | H : (_ && _) = true |- _ => apply andb_true_iff in H; destruct H
           end;
    repeat match goal with
           | H : (_ <=? _) = true |- _ => apply Z.leb_le in H
           | H : (_ =? _) = true |- _ => apply Z.eqb_eq in H
           end;
    unfold whiteSpaces; simpl; lia.
Qed.

Lemma assoc_outside {B : Type} (Q : rune -> bool) (r : rune) (rows : list (rune * B)) :
  forallb (fun row => Q (fst row)) rows = true -> Q r = false ->
  ucd.assoc r rows = None.
Proof.
  intros Hrows Hr. induction rows as [|[k v] rows IH]; [reflexivity|].
  simpl in *. apply andb_true_iff in Hrows. destruct Hrows as [Hk Hrows].
  destruct (Z.eqb_spec r k) as [->|]; [congruence|now apply IH].
Qed.

Lemma latin_whiteSpaceKept : whiteSpaceKept ucd.latin.
Proof.
  assert (Hws : forallb
                  (fun c => match ucd.assoc c ucd.decompositions with
                            | None => true
                            | Some _ => false
                            end
                            && (ucd.classOf c ucd.combiningClasses =? 0)
                            && negb (ucd.isMn c)
                            && unicode.IsSpace c)
                  whiteSpaces = true) by (vm_compute; reflexivity).
  assert (Hdec : forallb
                   (fun row : rune * list rune =>
                      negb (unicode.IsSpace (fst row))
                      && forallb (fun r => negb (unicode.IsSpace r)) (snd row))
                   ucd.decompositions = true) by (vm_compute; reflexivity).
  assert (Hlow : forallb
                   (fun row : rune * rune =>
                      negb (unicode.IsSpace (fst row))
                      && negb (unicode.IsSpace (snd row)))
                   ucd.lowerCase = true) by (vm_compute; reflexivity).
  rewrite forallb_forall in Hws, Hdec, Hlow.
  assert (Hspace : forall c, unicode.IsSpace c = true ->
                     ucd.assoc c ucd.decompositions = None /\
                     ucd.classOf c ucd.combiningClasses = 0 /\
                     ucd.isMn c = false).
  { intros c Hc. specialize (Hws c (IsSpace_whiteSpaces c Hc)).
    apply andb_true_iff in Hws. destruct Hws as [Hws _].
    apply andb_true_iff in Hws. destruct Hws as [Hws HMn].
    apply andb_true_iff in Hws. destruct Hws as [Hd Hccc].
    split; [now destruct (ucd.assoc c ucd.decompositions)|].
    split; [now apply Z.eqb_eq|now apply negb_true_iff]. }
  repeat split.
  - intros c Hc. exists c. destruct (Hspace c Hc) as [Hd _].
    cbn [ucd.latin ucd_decomp]. unfold ucd.decomp. now rewrite Hd.
  - now destruct (Hspace c H) as [_ [Hccc _]].
  - now destruct (Hspace c H) as [_ [_ HMn]].
  - intros c r Hc Hr. cbn [ucd.latin ucd_decomp] in Hr. unfold ucd.decomp in Hr.
    destruct (ucd.assoc c ucd.decompositions) as [d|] eqn:E.
    + apply assoc_In in E. specialize (Hdec _ E). cbn [fst snd] in Hdec.
      apply andb_true_iff in Hdec. destruct Hdec as [_ Hd].
      rewrite forallb_forall in Hd. now apply negb_true_iff, Hd.
    + destruct Hr as [<-|[]]. exact Hc.
  - intros c. cbn [ucd.latin ucd_lower]. unfold ucd.lower.
    destruct ((65 <=? c) && (c <=? 90)) eqn:Ecap.
    + apply andb_true_iff in Ecap. destruct Ecap as [Hlo Hhi].
      apply Z.leb_le in Hlo, Hhi.
      destruct (unicode.IsSpace (c + 32)) eqn:E1.
      { apply IsSpace_whiteSpaces in E1. unfold whiteSpaces in E1. simpl in E1. lia. }
      destruct (unicode.IsSpace c) eqn:E2; [|reflexivity].
      apply IsSpace_whiteSpaces in E2. unfold whiteSpaces in E2. simpl in E2. lia.
    + destruct (ucd.assoc c ucd.lowerCase) as [l|] eqn:E; [|reflexivity].
      apply assoc_In in E. specialize (Hlow _ E). cbn [fst snd] in Hlow.
      apply andb_true_iff in Hlow. destruct Hlow as [Hc Hl].
      apply negb_true_iff in Hc, Hl. congruence.
Qed.

(** ** The drivers *)




(** A syllable made of a mark only, here a lone acute accent between
    "a" and "b", is what [keepsSyllables] leaves out: stripped after
    the white space was collapsed, it leaves its two spaces behind,
    while the comparison form of the word is "a b". *)
Example ui_on_a_syllable_of_marks :
  comparisonForm ucd.latin [97; 32; 0x301; 32; 98] = str "a b" /\
  strings.ToLower ucd.latin
    (removeDiacritics ucd.latin (Rev2.normalizeSpaces [97; 32; 0x301; 32; 98]))
  = str "a  b" /\
  Rev2.ui ucd.latin [[97; 32; 0x301; 32; 98]] (str "a b") = Ok (Printed []).
Proof. repeat split. Qed.
